(** * users-api: the user service (users/user.service.ts)

    A shallow embedding of [UserService]: the four validators (three regular
    expressions and the CPF check digits), the two uniqueness tests, the
    validation gate [validateUserData], and the operations [createUser],
    [updateUser], [deleteUser], [getUserById] and [listUsers] over the
    private array [users].

    Conventions.
    - A JavaScript string is a [string]; a character is one code unit, read
      in the range 0..255 (Latin-1).  Every character class of the source
      is written out on that range.
    - [throw new Error(msg)] is the result [Throw msg]; a method is a
      function from the array before the call to its result and the array
      after the call.
    - [Date.now()] and the [id] of a new [User] are inputs of [createUser]. *)

From Stdlib Require Import ZArith Ascii String DecimalString Lia.
From Stdlib Require DecimalFacts DecimalNat DecimalPos.
From stdpp Require Import base list strings.

(** ** Regular expressions

    The patterns of the source are all anchored ([^] ... [$]) and are used
    through [RegExp.prototype.test] without flags, so a pattern accepts a
    string when the whole string is in its language.  Matching is by
    derivatives. *)

Module Regex.

Inductive re : Type :=
| Void : re
| Eps : re
| Cls : (ascii → bool) → re
| Seq : re → re → re
| Alt : re → re → re
| And : re → re → re
| Star : re → re.

Fixpoint nullable (r : re) : bool :=
  match r with
  | Void => false
  | Eps => true
  | Cls _ => false
  | Seq r1 r2 => nullable r1 && nullable r2
  | Alt r1 r2 => nullable r1 || nullable r2
  | And r1 r2 => nullable r1 && nullable r2
  | Star _ => true
  end.

Fixpoint deriv (a : ascii) (r : re) : re :=
  match r with
  | Void => Void
  | Eps => Void
  | Cls p => if p a then Eps else Void
  | Seq r1 r2 =>
      if nullable r1
      then Alt (Seq (deriv a r1) r2) (deriv a r2)
      else Seq (deriv a r1) r2
  | Alt r1 r2 => Alt (deriv a r1) (deriv a r2)
  | And r1 r2 => And (deriv a r1) (deriv a r2)
  | Star r1 => Seq (deriv a r1) (Star r1)
  end.

Fixpoint matches (r : re) (w : list ascii) : bool :=
  match w with
  | [] => nullable r
  | a :: w' => matches (deriv a r) w'
  end.

(** [r+], [r{n}] and [r{n,}]. *)
Definition Plus (r : re) : re := Seq r (Star r).

Fixpoint Times (n : nat) (r : re) : re :=
  match n with
  | O => Eps
  | S n' => Seq r (Times n' r)
  end.

Definition AtLeast (n : nat) (r : re) : re := Seq (Times n r) (Star r).

Definition Chr (c : ascii) : re := Cls (Ascii.eqb c).

Definition Any : re := Cls (λ _, true).

(** A lookahead [(?=r)] at the start of an anchored pattern [^(?=r)body$]:
    some prefix of the input matches [r], and the whole input matches
    [body]. *)
Definition Lookahead (r body : re) : re := And (Seq r (Star Any)) body.

(** The language of an expression. *)
Inductive lang : re → list ascii → Prop :=
| lang_eps : lang Eps []
| lang_cls p a : p a = true → lang (Cls p) [a]
| lang_seq r1 r2 w1 w2 : lang r1 w1 → lang r2 w2 → lang (Seq r1 r2) (w1 ++ w2)
| lang_alt_l r1 r2 w : lang r1 w → lang (Alt r1 r2) w
| lang_alt_r r1 r2 w : lang r2 w → lang (Alt r1 r2) w
| lang_and r1 r2 w : lang r1 w → lang r2 w → lang (And r1 r2) w
| lang_star_nil r : lang (Star r) []
| lang_star_cons r a w1 w2 :
    lang r (a :: w1) → lang (Star r) w2 → lang (Star r) (a :: w1 ++ w2).

End Regex.

Import Regex.

(** ** Character classes of the source *)

Definition code (c : ascii) : N := N_of_ascii c.

Definition in_range (lo hi : N) (c : ascii) : bool :=
  (lo <=? code c)%N && (code c <=? hi)%N.

(** [\d] *)
Definition isDigit (c : ascii) : bool := in_range 48 57 c.

(** [[a-z]] and [[A-Z]] *)
Definition isLower (c : ascii) : bool := in_range 97 122 c.
Definition isUpper (c : ascii) : bool := in_range 65 90 c.

(** [[@$!%*?&]] *)
Definition isSymbol (c : ascii) : bool :=
  existsb (Ascii.eqb c) ["@"; "$"; "!"; "%"; "*"; "?"; "&"]%char.

(** [[A-Za-z\d@$!%*?&]] *)
Definition isPasswordChar (c : ascii) : bool :=
  isUpper c || isLower c || isDigit c || isSymbol c.

(** [\s] on the code units 0..255: tab, line feed, vertical tab, form feed,
    carriage return, space and the no-break space. *)
Definition isSpace (c : ascii) : bool :=
  existsb (N.eqb (code c)) [9; 10; 11; 12; 13; 32; 160]%N.

(** [[^\s@]] *)
Definition isEmailChar (c : ascii) : bool :=
  negb (isSpace c) && negb (Ascii.eqb c "@").

(** [.] without the [s] flag: any character but a line terminator. *)
Definition isDot (c : ascii) : bool :=
  negb (existsb (N.eqb (code c)) [10; 13]%N).

Definition regex_test (r : re) (s : string) : bool :=
  matches r (list_ascii_of_string s).

(** ** Validators *)

(** [/^[^\s@]+@[^\s@]+\.[^\s@]+$/] *)
Definition emailRegex : re :=
  Seq (Plus (Cls isEmailChar))
    (Seq (Chr "@")
       (Seq (Plus (Cls isEmailChar))
          (Seq (Chr ".") (Plus (Cls isEmailChar))))).

Definition isValidEmail (email : string) : bool := regex_test emailRegex email.

(** [/^(?=.*[a-z])(?=.*[A-Z])(?=.*\d)(?=.*[@$!%*?&])[A-Za-z\d@$!%*?&]{8,}$/] *)
Definition passwordRegex : re :=
  Lookahead (Seq (Star (Cls isDot)) (Cls isLower))
    (Lookahead (Seq (Star (Cls isDot)) (Cls isUpper))
       (Lookahead (Seq (Star (Cls isDot)) (Cls isDigit))
          (Lookahead (Seq (Star (Cls isDot)) (Cls isSymbol))
             (AtLeast 8 (Cls isPasswordChar))))).

Definition isValidPassword (password : string) : bool :=
  regex_test passwordRegex password.

(** [/^\d{3}\.\d{3}\.\d{3}\-\d{2}$/] *)
Definition cpfRegex : re :=
  Seq (Times 3 (Cls isDigit))
    (Seq (Chr ".")
       (Seq (Times 3 (Cls isDigit))
          (Seq (Chr ".")
             (Seq (Times 3 (Cls isDigit))
                (Seq (Chr "-") (Times 2 (Cls isDigit))))))).

Definition isValidCpfFormat (cpf : string) : bool := regex_test cpfRegex cpf.

(** [cpf.replace(/[^\d]+/g, '')]: every run of non-digits is removed, the
    digits stay in order. *)
Definition removeNonDigits (cpf : string) : list ascii :=
  List.filter isDigit (list_ascii_of_string cpf).

Definition invalidCpfs : list string :=
  [ "00000000000"; "11111111111"; "22222222222"; "33333333333"; "44444444444";
    "55555555555"; "66666666666"; "77777777777"; "88888888888"; "99999999999" ].

(** [parseInt] of a one-character string holding a digit.  It is applied to
    characters of [cpfWithoutDots] only, which are digits (see
    [removeNonDigits_digits] and [parseInt_digit]). *)
Definition parseInt (c : ascii) : Z := (Z.of_N (code c) - 48)%Z.

(** The loop of [calculateCpfDigit], for [i] up to [length]:
    [sum += parseInt(base.substring(i - 1, i)) * (length + 2 - i)].
    [rest] is [base] from index [i - 1] on and [n] the number of iterations
    left; [base] has 11 characters and [length] is 9 or 10, so [rest] does not
    run out before [n] does. *)
Fixpoint cpfSum (rest : list ascii) (i : Z) (n : nat) (len : Z) (sum : Z) : Z :=
  match n, rest with
  | S n', c :: rest' =>
      cpfSum rest' (i + 1)%Z n' len (sum + parseInt c * (len + 2 - i))%Z
  | _, _ => sum
  end.

Definition calculateCpfDigit (base : list ascii) (len : nat) : Z :=
  let sum := cpfSum base 1 len (Z.of_nat len) 0 in
  let remainder := ((sum * 10) mod 11)%Z in
  if (remainder =? 10)%Z || (remainder =? 11)%Z then 0%Z else remainder.

Definition isValidCpfDigits (cpf : string) : bool :=
  let cpfWithoutDots := removeNonDigits cpf in
  if negb (length cpfWithoutDots =? 11)%nat then false
  else if existsb (String.eqb (string_of_list_ascii cpfWithoutDots)) invalidCpfs
  then false
  else
    let firstDigit := calculateCpfDigit cpfWithoutDots 9 in
    let secondDigit := calculateCpfDigit cpfWithoutDots 10 in
    (firstDigit =? parseInt (nth 9 cpfWithoutDots "0"%char))%Z
    && (secondDigit =? parseInt (nth 10 cpfWithoutDots "0"%char))%Z.

(** ** The [User] entity *)

Inductive UserType : Type := customer | manager | admin.

(** Modelled from the spec: the class [User] of users/user.entity.ts, which
    the service imports.  Its attributes are the eight constructor arguments
    of [createUser], in that order (the seventh, the sequence number, is
    called [userNumber] here), and the [id] that [updateUser], [deleteUser]
    and [getUserById] compare.  The secondary password is optional:
    [None] is [undefined]. *)
Record User : Type := mkUser {
  id : string;
  name : string;
  email : string;
  password : string;
  cpf : string;
  userType : UserType;
  userCode : string;
  userNumber : string;
  superPassword : option string
}.

(** Modelled from the spec: the constructor [new User(...)].  It stores its
    arguments; the [id] is assigned separately and is an input here. *)
Definition new_User (newId name email password cpf : string) (userType : UserType)
    (userCode userNumber : string) (superPassword : option string) : User :=
  mkUser newId name email password cpf userType userCode userNumber superPassword.

(** ** Methods: results and state

    A method runs on the array [users] and gives a value or throws, and the
    array after it. *)

Inductive result (A : Type) : Type :=
| Ok : A → result A
| Throw : string → result A.

Arguments Ok {A} _.
Arguments Throw {A} _.

Definition M (A : Type) : Type := list User → result A * list User.

#[global] Instance M_ret : MRet M := λ A a users, (Ok a, users).

#[global] Instance M_bind : MBind M := λ A B k m users,
  match m users with
  | (Ok a, users') => k a users'
  | (Throw message, users') => (Throw message, users')
  end.

Definition throw {A} (message : string) : M A := λ users, (Throw message, users).

Definition get : M (list User) := λ users, (Ok users, users).

Definition put (users' : list User) : M unit := λ _, (Ok tt, users').

(** [if (b) throw new Error(message)] *)
Definition throw_if (b : bool) (message : string) : M unit :=
  if b then throw message else mret tt.

(** Truthiness of [superPassword]: [undefined] and the empty string are
    falsy. *)
Definition truthy (superPassword : option string) : bool :=
  match superPassword with
  | None => false
  | Some s => negb (String.eqb s "")
  end.

(** [Number.prototype.toString] of an array length and of [Date.now()]. *)
Definition toString_nat (n : nat) : string :=
  NilZero.string_of_uint (Nat.to_uint n).

Definition toString (z : Z) : string :=
  NilZero.string_of_int (Z.to_int z).

(** ** The service *)

Definition isEmailInUse (email' : string) : M bool :=
  users ← get;
  mret (existsb (λ user, String.eqb (email user) email') users).

Definition isCpfInUse (cpf' : string) : M bool :=
  users ← get;
  mret (existsb (λ user, String.eqb (cpf user) cpf') users).

Definition validateUserData (email password : string)
    (superPassword : option string) (cpf : string) : M unit :=
  throw_if (negb (isValidEmail email)) "Invalid email" ;;
  throw_if (negb (isValidPassword password)) "Invalid password" ;;
  throw_if (match superPassword with
            | Some s => truthy superPassword && negb (isValidPassword s)
            | None => false
            end) "Invalid super password" ;;
  inUse ← isEmailInUse email;
  throw_if inUse "Email already in use" ;;
  inUse ← isCpfInUse cpf;
  throw_if inUse "CPF already in use" ;;
  throw_if (negb (isValidCpfFormat cpf) || negb (isValidCpfDigits cpf))
    "Invalid CPF".

(** [now] is the value of [Date.now()] and [newId] the [id] of the new
    object. *)
Definition createUser (now : Z) (newId : string)
    (name email password cpf : string) (userType : UserType)
    (superPassword : option string) : M User :=
  validateUserData email password superPassword cpf ;;
  users ← get;
  let userCode := toString now +:+ toString_nat (length users) in
  let user :=
    new_User newId name email password cpf userType userCode
      (toString_nat (length users + 1)) superPassword in
  put (users ++ [user]) ;;
  mret user.

(** The assignments of [updateUser] to the object found. *)
Definition assign (user : User) :
    string → string → string → string → UserType → option string → User :=
  let previous := superPassword user in
  λ name email password cpf userType superPassword,
  {| id := id user;
     name := name;
     email := email;
     password := password;
     cpf := cpf;
     userType := userType;
     userCode := userCode user;
     userNumber := userNumber user;
     superPassword :=
       if truthy superPassword then superPassword else previous |}.

(** [this.users.find(user => user.id === id)] with the position of the
    object found; the object is updated in place, at that position. *)
Definition updateUser (id' : string) (name email password cpf : string)
    (userType : UserType) (superPassword : option string) : M User :=
  validateUserData email password superPassword cpf ;;
  users ← get;
  match list_find (λ user, id user = id') users with
  | None => throw "User not found"
  | Some (i, user) =>
      let user' := assign user name email password cpf userType superPassword in
      put (<[i := user']> users) ;;
      mret user'
  end.

Definition deleteUser (id' : string) : M unit :=
  users ← get;
  put (filter (λ user, id user ≠ id') users).

Definition getUserById (id' : string) : M User :=
  users ← get;
  match list_find (λ user, id user = id') users with
  | None => throw "User not found"
  | Some (_, user) => mret user
  end.

Definition listUsers : M (list User) := get.

(** The errors, by the names the specification gives them. *)
Definition InvalidEmail : string := "Invalid email".
Definition InvalidPassword : string := "Invalid password".
Definition InvalidSecondaryPassword : string := "Invalid super password".
Definition EmailInUse : string := "Email already in use".
Definition TaxIdInUse : string := "CPF already in use".
Definition InvalidTaxId : string := "Invalid CPF".
Definition UserNotFound : string := "User not found".

(** ** The password policy, in the words of the specification *)

Definition lowercase (c : ascii) : Prop := (97 ≤ N_of_ascii c ≤ 122)%N.
Definition uppercase (c : ascii) : Prop := (65 ≤ N_of_ascii c ≤ 90)%N.
Definition digit (c : ascii) : Prop := (48 ≤ N_of_ascii c ≤ 57)%N.
Definition symbol (c : ascii) : Prop :=
  c ∈ ["@"; "$"; "!"; "%"; "*"; "?"; "&"]%char.
Definition permitted (c : ascii) : Prop :=
  lowercase c ∨ uppercase c ∨ digit c ∨ symbol c.

Definition complex (password : string) : Prop :=
  let chars := list_ascii_of_string password in
  8 ≤ String.length password
  ∧ (∃ c, c ∈ chars ∧ lowercase c)
  ∧ (∃ c, c ∈ chars ∧ uppercase c)
  ∧ (∃ c, c ∈ chars ∧ digit c)
  ∧ (∃ c, c ∈ chars ∧ symbol c)
  ∧ (∀ c, c ∈ chars → permitted c).

(** ** The gate, in the words of the specification

    Six checks in a fixed order, each with the error it reports; the gate
    reports the error of the first check that fails. *)

Definition emailTaken (users : list User) (email' : string) : Prop :=
  email' ∈ email <$> users.

Definition taxIdTaken (users : list User) (cpf' : string) : Prop :=
  cpf' ∈ cpf <$> users.

#[global] Instance emailTaken_dec users email' : Decision (emailTaken users email').
Proof. unfold emailTaken. apply _. Defined.

#[global] Instance taxIdTaken_dec users cpf' : Decision (taxIdTaken users cpf').
Proof. unfold taxIdTaken. apply _. Defined.

(** The secondary password passes when it is not supplied, is empty, or
    passes the complexity check. *)
Definition secondaryPasswordOk (superPassword : option string) : bool :=
  match superPassword with
  | None => true
  | Some s => bool_decide (s = "") || isValidPassword s
  end.

Definition checks (users : list User) (email password : string)
    (superPassword : option string) (cpf : string) : list (bool * string) :=
  [ (isValidEmail email, InvalidEmail);
    (isValidPassword password, InvalidPassword);
    (secondaryPasswordOk superPassword, InvalidSecondaryPassword);
    (negb (bool_decide (emailTaken users email)), EmailInUse);
    (negb (bool_decide (taxIdTaken users cpf)), TaxIdInUse);
    (isValidCpfFormat cpf && isValidCpfDigits cpf, InvalidTaxId) ].

Fixpoint firstFailure (cs : list (bool * string)) : option string :=
  match cs with
  | [] => None
  | (passed, error) :: cs' => if passed then firstFailure cs' else Some error
  end.

Definition verdict (failure : option string) : result unit :=
  match failure with
  | Some error => Throw error
  | None => Ok tt
  end.

(** ** Runs of the service *)

Inductive call : Type :=
| CreateUser (now : Z) (newId name email password cpf : string)
    (userType : UserType) (superPassword : option string)
| UpdateUser (id name email password cpf : string)
    (userType : UserType) (superPassword : option string)
| DeleteUser (id : string).

(** The array after a call; a call that throws is part of a run like any
    other. *)
Definition exec (users : list User) (c : call) : list User :=
  match c with
  | CreateUser now newId name email password cpf userType superPassword =>
      (createUser now newId name email password cpf userType superPassword users).2
  | UpdateUser id name email password cpf userType superPassword =>
      (updateUser id name email password cpf userType superPassword users).2
  | DeleteUser id => (deleteUser id users).2
  end.

Definition run (calls : list call) : list User := foldl exec [] calls.

Definition reachable (users : list User) : Prop := ∃ calls, run calls = users.

(** ** Sample records *)

Definition ana : User :=
  mkUser "1" "Ana" "ana@example.com" "Abcdef1!" "123.456.789-09" customer
    "17000000000000" "1" None.

Definition bia : User :=
  mkUser "2" "Bia" "bia@example.com" "Abcdef1!" "111.444.777-35" manager
    "17000000000011" "2" (Some "Zyxwvu9?").

Definition carla : User :=
  mkUser "3" "Carla" "carla@example.com" "Abcdef1!" "529.982.247-25" admin
    "17000000000021" "2" None.

(** A record whose tax-id is malformed. *)
Definition legacy : User :=
  mkUser "9" "Lia" "lia@example.com" "Abcdef1!" "000" customer "0" "1" None.

Definition create (now : Z) (user : User) : call :=
  CreateUser now (id user) (name user) (email user) (password user)
    (cpf user) (userType user) (superPassword user).

(** The fields of a record, as arguments of [createUser], pass the gate's
    checks on the values alone. *)
Definition validInput (user : User) : Prop :=
  isValidEmail (email user) = true
  ∧ isValidPassword (password user) = true
  ∧ secondaryPasswordOk (superPassword user) = true
  ∧ isValidCpfFormat (cpf user) = true
  ∧ isValidCpfDigits (cpf user) = true.

(** No email and no tax-id occurs twice in the array. *)
Definition unique (users : list User) : Prop :=
  NoDup (email <$> users) ∧ NoDup (cpf <$> users).

(** ** Shapes of an email and of a tax-id *)

(** [local@domain.tld]: three non-empty runs of characters that are neither
    white space nor [@], separated by one [@] and one [.]. *)
Definition emailShape (w : list ascii) : Prop :=
  ∃ a b c,
    w = a ++ "@"%char :: b ++ "."%char :: c
    ∧ a ≠ [] ∧ b ≠ [] ∧ c ≠ []
    ∧ Forall (λ x, isEmailChar x = true) (a ++ b ++ c).

(** [DDD.DDD.DDD-DD] *)
Definition cpfShape (w : list ascii) : Prop :=
  ∃ a b c d,
    w = a ++ "."%char :: b ++ "."%char :: c ++ "-"%char :: d
    ∧ length a = 3 ∧ length b = 3 ∧ length c = 3 ∧ length d = 2
    ∧ Forall (λ x, isDigit x = true) (a ++ b ++ c ++ d).

(** The calls of a run that remove records. *)
Definition isDelete (c : call) : bool :=
  match c with
  | DeleteUser _ => true
  | _ => false
  end.

(** ** Decimal numerals

    [s] is the decimal numeral of a count [n], or of an integer [z]: the
    string the Standard Library reads back as that number, digit for digit
    (no sign for a count, no leading zero, [0] for zero). *)
Definition decimal_nat (n : nat) (s : string) : Prop :=
  NilZero.uint_of_string s = Some (Nat.to_uint n).

Definition decimal_Z (z : Z) (s : string) : Prop :=
  NilZero.int_of_string s = Some (Z.to_int z).

(** * Properties *)

(** ** Matching decides the language *)

Section RegexTheory.

Lemma nullable_lang r : nullable r = true ↔ lang r [].
Proof.
  split.
  - induction r; simpl; intros Hn; try discriminate.
    + constructor.
    + apply andb_true_iff in Hn as [H1 H2].
      change (@nil ascii) with (@nil ascii ++ []). constructor; auto.
    + apply orb_true_iff in Hn as [H | H];
        [apply lang_alt_l | apply lang_alt_r]; auto.
    + apply andb_true_iff in Hn as [H1 H2]. constructor; auto.
    + constructor.
  - intros H. remember [] as w eqn:Hw.
    induction H; simpl; try discriminate; auto.
    + apply app_eq_nil in Hw as [-> ->]. rewrite IHlang1, IHlang2; auto.
    + rewrite IHlang; auto.
    + rewrite IHlang, orb_true_r; auto.
    + rewrite IHlang1, IHlang2; auto.
Qed.

Lemma deriv_sound a r : ∀ w, lang (deriv a r) w → lang r (a :: w).
Proof.
  induction r; simpl; intros w H.
  - inversion H.
  - inversion H.
  - destruct (b a) eqn:Hb; inversion H; subst. constructor; auto.
  - destruct (nullable r1) eqn:Hn.
    + inversion H as [| | | ? ? ? H' | ? ? ? H' | | |]; subst.
      * inversion H'; subst.
        change (a :: w1 ++ w2) with ((a :: w1) ++ w2). constructor; auto.
      * change (a :: w) with ([] ++ a :: w). constructor; auto.
        apply nullable_lang; auto.
    + inversion H; subst.
      change (a :: w1 ++ w2) with ((a :: w1) ++ w2). constructor; auto.
  - inversion H; subst; [apply lang_alt_l | apply lang_alt_r]; auto.
  - inversion H; subst. constructor; auto.
  - inversion H; subst. constructor; auto.
Qed.

Lemma deriv_complete a r w' :
  lang r w' → ∀ w, w' = a :: w → lang (deriv a r) w.
Proof.
  induction 1 as [ | p b Hp | r1 r2 w1 w2 H1 IH1 H2 IH2 | r1 r2 w0 H1 IH1
                 | r1 r2 w0 H1 IH1 | r1 r2 w0 H1 IH1 H2 IH2 |
                 | r b w1 w2 H1 IH1 H2 IH2 ]; intros w Hw; simpl.
  - discriminate.
  - injection Hw as -> <-. rewrite Hp. constructor.
  - destruct w1 as [| b w1].
    + simpl in Hw. subst w2.
      apply nullable_lang in H1. rewrite H1.
      apply lang_alt_r. auto.
    + injection Hw as -> <-.
      assert (lang (Seq (deriv a r1) r2) (w1 ++ w2))
        by (constructor; auto).
      destruct (nullable r1); [apply lang_alt_l |]; auto.
  - apply lang_alt_l; auto.
  - apply lang_alt_r; auto.
  - constructor; auto.
  - discriminate.
  - injection Hw as -> <-. constructor; auto.
Qed.

Lemma deriv_lang a r w : lang (deriv a r) w ↔ lang r (a :: w).
Proof.
  split; [apply deriv_sound | intros H; eapply deriv_complete; eauto].
Qed.

Lemma matches_lang r w : matches r w = true ↔ lang r w.
Proof.
  revert r. induction w as [| a w IH]; intros r; simpl.
  - apply nullable_lang.
  - rewrite IH. apply deriv_lang.
Qed.

End RegexTheory.

(** ** The shapes the patterns are built from *)

Lemma star_cls (p : ascii → bool) w :
  lang (Star (Cls p)) w ↔ Forall (λ c, p c = true) w.
Proof.
  split.
  - intros H. remember (Star (Cls p)) as r eqn:Hr.
    induction H; try discriminate.
    + constructor.
    + injection Hr as ->. inversion H; subst. simpl. constructor; auto.
  - induction 1 as [| a w Ha _ IH].
    + constructor.
    + change (a :: w) with (a :: [] ++ w). constructor; auto.
      constructor; auto.
Qed.

Section Shapes.

Variable p : ascii → bool.

Lemma times_cls n : ∀ w,
  lang (Times n (Cls p)) w ↔ length w = n ∧ Forall (λ c, p c = true) w.
Proof.
  induction n as [| n IH]; intros w; simpl; split.
  - inversion 1. auto.
  - intros [Hl _]. destruct w; [constructor | discriminate].
  - inversion 1 as [| | ? ? w1 w2 H1 H2 | | | | |]; subst.
    inversion H1; subst. apply IH in H2 as [<- HF]. simpl. auto.
  - intros [Hl HF]. destruct w as [| a w]; [discriminate |].
    inversion HF; subst. change (a :: w) with ([a] ++ w).
    constructor; [constructor; auto |]. apply IH. simpl in Hl. auto with lia.
Qed.

Lemma atleast_cls n w :
  lang (AtLeast n (Cls p)) w ↔ n ≤ length w ∧ Forall (λ c, p c = true) w.
Proof.
  unfold AtLeast. split.
  - inversion 1 as [| | ? ? w1 w2 H1 H2 | | | | |]; subst.
    apply times_cls in H1 as [<- H1]. apply star_cls in H2.
    rewrite length_app. split; [lia | apply Forall_app; auto].
  - intros [Hl HF]. rewrite <- (take_drop n w).
    rewrite <- (take_drop n w) in HF. apply Forall_app in HF as [H1 H2].
    constructor.
    + apply times_cls. rewrite length_take. split; [lia | auto].
    + apply star_cls; auto.
Qed.

(** [(?=d*p)] at the start: the input has a character of [p] with only
    characters of [d] before it. *)
Lemma prefix_cls d w :
  lang (Seq (Seq (Star (Cls d)) (Cls p)) (Star Any)) w
  ↔ ∃ w1 a w2, w = w1 ++ a :: w2 ∧ Forall (λ c, d c = true) w1 ∧ p a = true.
Proof.
  split.
  - inversion 1 as [| | ? ? w12 w2 H12 H2 | | | | |]; subst.
    inversion H12 as [| | ? ? w1 wa H1 Ha | | | | |]; subst.
    inversion Ha; subst. apply star_cls in H1.
    exists w1, a, w2. rewrite <- app_assoc. auto.
  - intros (w1 & a & w2 & -> & H1 & Ha).
    change (w1 ++ a :: w2) with (w1 ++ [a] ++ w2). rewrite app_assoc.
    constructor.
    + constructor; [apply star_cls; auto | constructor; auto].
    + apply star_cls. apply Forall_forall. auto.
Qed.

End Shapes.

(** ** The password policy *)

Lemma in_range_spec lo hi c :
  in_range lo hi c = true ↔ (lo ≤ N_of_ascii c ≤ hi)%N.
Proof.
  unfold in_range, code. rewrite andb_true_iff, !N.leb_le. tauto.
Qed.

Lemma isSymbol_spec c : isSymbol c = true ↔ symbol c.
Proof.
  unfold isSymbol, symbol. rewrite existsb_exists. split.
  - intros (x & Hx & He). apply Ascii.eqb_eq in He as ->.
    apply list_elem_of_In; auto.
  - intros H. exists c. split; [apply list_elem_of_In; auto | apply Ascii.eqb_refl].
Qed.

Lemma isPasswordChar_spec c : isPasswordChar c = true ↔ permitted c.
Proof.
  unfold isPasswordChar, permitted, isUpper, isLower, isDigit.
  rewrite !orb_true_iff, !in_range_spec, isSymbol_spec.
  unfold lowercase, uppercase, digit. tauto.
Qed.

Lemma isPasswordChar_isDot c : isPasswordChar c = true → isDot c = true.
Proof.
  destruct c as [[] [] [] [] [] [] [] []]; vm_compute; auto.
Qed.

Lemma length_list_ascii_of_string s :
  length (list_ascii_of_string s) = String.length s.
Proof. induction s; simpl; auto. Qed.

Lemma lookahead_spec (cls : ascii → bool) body w :
  Forall (λ c, isPasswordChar c = true) w →
  (lang (Lookahead (Seq (Star (Cls isDot)) (Cls cls)) body) w
   ↔ (∃ c, c ∈ w ∧ cls c = true) ∧ lang body w).
Proof.
  intros Hw. unfold Lookahead. split.
  - inversion 1 as [| | | | | ? ? ? H1 H2 | |]; subst. split; auto.
    apply prefix_cls in H1 as (w1 & a & w2 & -> & _ & Ha).
    exists a. split; auto. apply elem_of_app. right. left.
  - intros [(c & Hc & Hcls) Hb]. constructor; auto.
    apply prefix_cls. apply list_elem_of_split in Hc as (w1 & w2 & ->).
    exists w1, c, w2. repeat split; auto.
    apply Forall_app in Hw as [Hw _].
    eapply Forall_impl; [exact Hw | apply isPasswordChar_isDot].
Qed.

Lemma lookahead_body r body w : lang (Lookahead r body) w → lang body w.
Proof. inversion 1; auto. Qed.

(** C8: the password complexity check accepts a string exactly when it has
    at least 8 characters, holds a lowercase letter, an uppercase letter, a
    digit and a symbol of [@$!%*?&], and holds no character outside
    [[A-Za-z0-9@$!%*?&]]. *)
Theorem isValidPassword_complex password :
  isValidPassword password = true ↔ complex password.
Proof.
  unfold isValidPassword, regex_test, complex, passwordRegex.
  rewrite matches_lang, <- length_list_ascii_of_string.
  set (w := list_ascii_of_string password).
  split.
  - intros H.
    assert (Hb : lang (AtLeast 8 (Cls isPasswordChar)) w)
      by (do 4 apply lookahead_body in H; exact H).
    apply atleast_cls in Hb as [Hl HF].
    apply lookahead_spec in H as [(c1 & H1 & L1) H]; [| exact HF].
    apply lookahead_spec in H as [(c2 & H2 & L2) H]; [| exact HF].
    apply lookahead_spec in H as [(c3 & H3 & L3) H]; [| exact HF].
    apply lookahead_spec in H as [(c4 & H4 & L4) _]; [| exact HF].
    repeat split; auto.
    + exists c1. split; [exact H1 | apply in_range_spec; exact L1].
    + exists c2. split; [exact H2 | apply in_range_spec; exact L2].
    + exists c3. split; [exact H3 | apply in_range_spec; exact L3].
    + exists c4. split; [exact H4 | apply isSymbol_spec; exact L4].
    + intros c Hc. apply isPasswordChar_spec.
      eapply Forall_forall in HF; eauto.
  - intros (Hl & (c1 & H1 & L1) & (c2 & H2 & L2) & (c3 & H3 & L3)
            & (c4 & H4 & L4) & Hall).
    assert (HF : Forall (λ c, isPasswordChar c = true) w).
    { apply Forall_forall. intros c Hc. apply isPasswordChar_spec; auto. }
    repeat (apply lookahead_spec; [exact HF | split]).
    + exists c1. split; auto. apply in_range_spec; auto.
    + exists c2. split; auto. apply in_range_spec; auto.
    + exists c3. split; auto. apply in_range_spec; auto.
    + exists c4. split; auto. apply isSymbol_spec; auto.
    + apply atleast_cls. auto.
Qed.

(** ** The digits of a tax-id *)

Lemma removeNonDigits_digits cpf :
  Forall (λ c, isDigit c = true) (removeNonDigits cpf).
Proof.
  unfold removeNonDigits. apply Forall_forall. intros c Hc.
  apply list_elem_of_In, filter_In in Hc as [_ Hc]. exact Hc.
Qed.

Lemma parseInt_digit c : isDigit c = true → (0 ≤ parseInt c ≤ 9)%Z.
Proof.
  unfold isDigit, parseInt. rewrite in_range_spec. unfold code. lia.
Qed.

(** ** The gate *)

Lemma existsb_field (f : User → string) users x :
  existsb (λ user, String.eqb (f user) x) users = true ↔ x ∈ f <$> users.
Proof.
  rewrite existsb_exists, list_elem_of_fmap. split.
  - intros (u & Hu & He). apply String.eqb_eq in He.
    exists u. split; [done | apply list_elem_of_In; done].
  - intros (u & -> & Hu). exists u.
    split; [apply list_elem_of_In; done | apply String.eqb_refl].
Qed.

Lemma existsb_email users e :
  existsb (λ user, String.eqb (email user) e) users
  = bool_decide (emailTaken users e).
Proof.
  destruct (existsb _ users) eqn:H; symmetry.
  - apply bool_decide_eq_true, existsb_field, H.
  - apply bool_decide_eq_false. intros Hin.
    apply existsb_field in Hin. congruence.
Qed.

Lemma existsb_cpf users c :
  existsb (λ user, String.eqb (cpf user) c) users
  = bool_decide (taxIdTaken users c).
Proof.
  destruct (existsb _ users) eqn:H; symmetry.
  - apply bool_decide_eq_true, existsb_field, H.
  - apply bool_decide_eq_false. intros Hin.
    apply existsb_field in Hin. congruence.
Qed.

(** Running the monad, one step at a time. *)

Lemma run_throw_if {B} b message (k : M B) users :
  (throw_if b message ;; k) users
  = if b then (Throw message, users) else k users.
Proof. destruct b; reflexivity. Qed.

Lemma run_throw_if_last b message users :
  throw_if b message users
  = if b then (Throw message, users) else (Ok tt, users).
Proof. destruct b; reflexivity. Qed.

Lemma run_get {B} (k : list User → M B) users :
  (users' ← get; k users') users = k users users.
Proof. reflexivity. Qed.

Lemma run_put {B} (k : M B) users' users :
  (put users' ;; k) users = k users'.
Proof. reflexivity. Qed.

Lemma run_isEmailInUse {B} e (k : bool → M B) users :
  (inUse ← isEmailInUse e; k inUse) users
  = k (bool_decide (emailTaken users e)) users.
Proof. rewrite <- existsb_email. reflexivity. Qed.

Lemma run_isCpfInUse {B} c (k : bool → M B) users :
  (inUse ← isCpfInUse c; k inUse) users
  = k (bool_decide (taxIdTaken users c)) users.
Proof. rewrite <- existsb_cpf. reflexivity. Qed.

Lemma run_bind {A B} (m : M A) (k : A → M B) users :
  (m ≫= k) users
  = match m users with
    | (Ok a, users') => k a users'
    | (Throw message, users') => (Throw message, users')
    end.
Proof. reflexivity. Qed.

Lemma superPassword_check sp :
  match sp with
  | Some s => truthy sp && negb (isValidPassword s)
  | None => false
  end = negb (secondaryPasswordOk sp).
Proof.
  destruct sp as [s |]; [| done]. unfold truthy, secondaryPasswordOk.
  destruct (String.eqb_spec s "") as [-> | Hne].
  - rewrite bool_decide_true; done.
  - rewrite bool_decide_false; done.
Qed.

Lemma validateUserData_checks users e p sp c :
  validateUserData e p sp c users
  = (verdict (firstFailure (checks users e p sp c)), users).
Proof.
  unfold validateUserData, checks. cbn [firstFailure].
  rewrite run_throw_if. destruct (isValidEmail e); [| done]. cbn [negb].
  rewrite run_throw_if. destruct (isValidPassword p); [| done]. cbn [negb].
  rewrite run_throw_if, superPassword_check.
  destruct (secondaryPasswordOk sp); [| done]. cbn [negb].
  rewrite run_isEmailInUse, run_throw_if.
  destruct (bool_decide (emailTaken users e)); [done |]. cbn [negb].
  rewrite run_isCpfInUse, run_throw_if.
  destruct (bool_decide (taxIdTaken users c)); [done |]. cbn [negb].
  rewrite run_throw_if_last.
  destruct (isValidCpfFormat c), (isValidCpfDigits c); done.
Qed.

Lemma checks_pass users e p sp c :
  firstFailure (checks users e p sp c) = None
  ↔ isValidEmail e = true ∧ isValidPassword p = true
    ∧ secondaryPasswordOk sp = true
    ∧ ¬ emailTaken users e ∧ ¬ taxIdTaken users c
    ∧ isValidCpfFormat c = true ∧ isValidCpfDigits c = true.
Proof.
  unfold checks. cbn [firstFailure].
  destruct (isValidEmail e);
    [| split; [discriminate | intros (? & _); discriminate]].
  destruct (isValidPassword p);
    [| split; [discriminate | intros (_ & ? & _); discriminate]].
  destruct (secondaryPasswordOk sp);
    [| split; [discriminate | intros (_ & _ & ? & _); discriminate]].
  destruct (decide (emailTaken users e)) as [He | He].
  { rewrite bool_decide_true by done.
    split; [discriminate | intros (_ & _ & _ & ? & _); done]. }
  rewrite bool_decide_false by done. cbn [negb].
  destruct (decide (taxIdTaken users c)) as [Hc | Hc].
  { rewrite bool_decide_true by done.
    split; [discriminate | intros (_ & _ & _ & _ & ? & _); done]. }
  rewrite bool_decide_false by done. cbn [negb].
  destruct (isValidCpfFormat c), (isValidCpfDigits c); cbn [andb];
    (split; [| intros (_ & _ & _ & _ & _ & ? & ?)]);
    try discriminate; try reflexivity.
  intros _. repeat split; done.
Qed.

(** ** The three writing operations, run on an array *)

Lemma createUser_run now newId n e p c t sp users :
  createUser now newId n e p c t sp users
  = match firstFailure (checks users e p sp c) with
    | Some error => (Throw error, users)
    | None =>
        let user :=
          new_User newId n e p c t
            (toString now +:+ toString_nat (length users))
            (toString_nat (length users + 1)) sp in
        (Ok user, users ++ [user])
    end.
Proof.
  unfold createUser. rewrite run_bind, validateUserData_checks.
  destruct (firstFailure _); reflexivity.
Qed.

Lemma updateUser_run i n e p c t sp users :
  updateUser i n e p c t sp users
  = match firstFailure (checks users e p sp c) with
    | Some error => (Throw error, users)
    | None =>
        match list_find (λ user, id user = i) users with
        | None => (Throw UserNotFound, users)
        | Some (k, user) =>
            let user' := assign user n e p c t sp in
            (Ok user', <[k := user']> users)
        end
    end.
Proof.
  unfold updateUser. rewrite run_bind, validateUserData_checks.
  destruct (firstFailure _); [reflexivity |]. cbn [verdict].
  rewrite run_get. destruct (list_find _ users) as [[k user] |]; reflexivity.
Qed.

Lemma deleteUser_run i users :
  deleteUser i users = (Ok tt, filter (λ user, id user ≠ i) users).
Proof. reflexivity. Qed.

(** ** Uniqueness of emails and tax-ids *)

Lemma NoDup_insert_fresh {A} (l : list A) i x :
  NoDup l → x ∉ l → NoDup (<[i := x]> l).
Proof.
  revert i. induction l as [| a l IH]; intros i Hl Hx; [done |].
  apply NoDup_cons in Hl as [Ha Hl].
  apply not_elem_of_cons in Hx as [Hxa Hx].
  destruct i as [| i]; simpl.
  - apply NoDup_cons. done.
  - apply NoDup_cons. split; [| auto].
    intros Hin. apply list_elem_of_lookup in Hin as [j Hj].
    apply list_lookup_insert_Some in Hj as [(_ & -> & _) | [_ Hj]].
    + done.
    + apply Ha. apply list_elem_of_lookup. eauto.
Qed.

Lemma NoDup_fmap_filter {A B} (f : A → B) (P : A → Prop)
    `{!∀ x, Decision (P x)} (l : list A) :
  NoDup (f <$> l) → NoDup (f <$> filter P l).
Proof.
  intros Hl. eapply sublist_NoDup; [exact Hl |].
  apply fmap_sublist, sublist_filter.
Qed.

Lemma unique_createUser now newId n e p c t sp users :
  unique users → unique (createUser now newId n e p c t sp users).2.
Proof.
  intros [He Hc]. rewrite createUser_run.
  destruct (firstFailure _) eqn:Hf; [done |].
  apply checks_pass in Hf as (_ & _ & _ & Hne & Hnc & _).
  unfold unique. cbn [snd]. rewrite !fmap_app. cbn [fmap list_fmap].
  split; apply NoDup_app; (split; [done |]);
    (split; [| apply NoDup_singleton]);
    intros x Hx ->%list_elem_of_singleton; cbn in Hx; done.
Qed.

Lemma unique_updateUser i n e p c t sp users :
  unique users → unique (updateUser i n e p c t sp users).2.
Proof.
  intros [He Hc]. rewrite updateUser_run.
  destruct (firstFailure _) eqn:Hf; [done |].
  apply checks_pass in Hf as (_ & _ & _ & Hne & Hnc & _).
  destruct (list_find _ users) as [[k user] |]; [| done].
  unfold unique. cbn [snd]. rewrite !list_fmap_insert. cbn.
  split; apply NoDup_insert_fresh; done.
Qed.

Lemma unique_deleteUser i users :
  unique users → unique (deleteUser i users).2.
Proof.
  intros [He Hc]. rewrite deleteUser_run.
  split; apply NoDup_fmap_filter; done.
Qed.

Lemma unique_exec users c : unique users → unique (exec users c).
Proof.
  intros Hu. destruct c; cbn [exec].
  - apply unique_createUser, Hu.
  - apply unique_updateUser, Hu.
  - apply unique_deleteUser, Hu.
Qed.

Lemma unique_foldl calls : ∀ users,
  unique users → unique (foldl exec users calls).
Proof.
  induction calls as [| c calls IH]; intros users Hu; simpl; [done |].
  apply IH, unique_exec, Hu.
Qed.

Lemma reachable_unique users : reachable users → unique users.
Proof.
  intros [calls <-]. apply unique_foldl. split; constructor.
Qed.

(** ** Generated identifiers *)

Lemma toString_nat_nonempty n : toString_nat n ≠ "".
Proof.
  unfold toString_nat, NilZero.string_of_uint.
  destruct (Nat.to_uint n); simpl; discriminate.
Qed.

Lemma append_nonempty s t : t ≠ "" → s +:+ t ≠ "".
Proof. destruct s; simpl; [done | discriminate]. Qed.

Lemma createUser_ok now newId n e p c t sp users :
  isValidEmail e = true → isValidPassword p = true →
  secondaryPasswordOk sp = true →
  isValidCpfFormat c = true → isValidCpfDigits c = true →
  ¬ emailTaken users e → ¬ taxIdTaken users c →
  createUser now newId n e p c t sp users
  = let user :=
      new_User newId n e p c t
        (toString now +:+ toString_nat (length users))
        (toString_nat (length users + 1)) sp in
    (Ok user, users ++ [user]).
Proof.
  intros. rewrite createUser_run.
  replace (firstFailure (checks users e p sp c)) with (@None string);
    [reflexivity |].
  symmetry. apply checks_pass. repeat split; done.
Qed.

Lemma error_cases users e p sp c error :
  firstFailure (checks users e p sp c) = Some error →
  (error = InvalidTaxId → ¬ taxIdTaken users c).
Proof.
  unfold checks. cbn [firstFailure].
  destruct (isValidEmail e); [| intros [= <-]; discriminate].
  destruct (isValidPassword p); [| intros [= <-]; discriminate].
  destruct (secondaryPasswordOk sp); [| intros [= <-]; discriminate].
  destruct (bool_decide (emailTaken users e)); cbn [negb];
    [intros [= <-]; discriminate |].
  destruct (decide (taxIdTaken users c)) as [Hc | Hc].
  - rewrite bool_decide_true by done. cbn [negb]. intros [= <-]; discriminate.
  - intros _ _. exact Hc.
Qed.

(** * The service on concrete inputs *)

Example isValidEmail_examples :
  map isValidEmail
    ["ana@example.com"; "ana@examplecom"; "ana.example.com";
     "ana@@example.com"; "a na@example.com"; "ana@example."]
  = [true; false; false; false; false; false].
Proof. vm_compute. reflexivity. Qed.

Example isValidPassword_examples :
  map isValidPassword
    ["Abcdef1!"; "Abcde1!"; "abcdef1!"; "ABCDEF1!"; "Abcdefg!"; "Abcdefg1";
     "Abcdef1! "]
  = [true; false; false; false; false; false; false].
Proof. vm_compute. reflexivity. Qed.

Example isValidCpfFormat_examples :
  map isValidCpfFormat ["123.456.789-09"; "12345678909"; "123.456.789-0"]
  = [true; false; false].
Proof. vm_compute. reflexivity. Qed.

Example isValidCpfDigits_examples :
  map isValidCpfDigits
    ["123.456.789-09"; "111.444.777-35"; "529.982.247-25"; "12345678909";
     "123.456.789-00"; "111.111.111-11"; "123.456.789"]
  = [true; true; true; true; false; false; false].
Proof. vm_compute. reflexivity. Qed.

Example calculateCpfDigit_123456789 :
  calculateCpfDigit (list_ascii_of_string "12345678909") 9 = 0%Z
  ∧ calculateCpfDigit (list_ascii_of_string "12345678909") 10 = 9%Z.
Proof. split; vm_compute; reflexivity. Qed.

Example run_ana_bia :
  run [create 1700000000000 ana; create 1700000000001 bia] = [ana; bia].
Proof. vm_compute. reflexivity. Qed.

Example run_ana_bia_carla :
  run [create 1700000000000 ana; create 1700000000001 bia; DeleteUser "1";
       create 1700000000002 carla] = [bia; carla].
Proof. vm_compute. reflexivity. Qed.

Example update_ana :
  updateUser "1" "Ana Maria" "ana.maria@example.com" "Abcdef1!"
    "529.982.247-25" manager (Some "Zyxwvu9?") [ana; bia]
  = (Ok (mkUser "1" "Ana Maria" "ana.maria@example.com" "Abcdef1!"
           "529.982.247-25" manager "17000000000000" "1" (Some "Zyxwvu9?")),
     [mkUser "1" "Ana Maria" "ana.maria@example.com" "Abcdef1!"
           "529.982.247-25" manager "17000000000000" "1" (Some "Zyxwvu9?");
      bia]).
Proof. vm_compute. reflexivity. Qed.

(** * The claims *)

(** ** Tax-id examples *)

(** C1, as stated, fails: the check digits of [123.456.789-09] are right, the
    checksum check accepts it, and [createUser] with it does not fail with
    InvalidTaxId. *)
Lemma taxId_123_456_789_09_not_rejected :
  isValidCpfDigits "123.456.789-09" ≠ false
  ∧ (createUser 1700000000000 "1" "Ana" "ana@example.com" "Abcdef1!"
       "123.456.789-09" customer None []).1 ≠ Throw InvalidTaxId.
Proof. split; vm_compute; discriminate. Qed.

(** C1, amended: the structural and the checksum check accept both
    [123.456.789-09] and [111.444.777-35]; [createUser] with
    [123.456.789-09] as tax-id, all other fields valid and unique, succeeds
    and appends the new record. *)
Theorem taxId_examples_accepted users now newId n e p t sp :
  isValidEmail e = true → isValidPassword p = true →
  secondaryPasswordOk sp = true →
  ¬ emailTaken users e → ¬ taxIdTaken users "123.456.789-09" →
  isValidCpfFormat "123.456.789-09" = true
  ∧ isValidCpfDigits "123.456.789-09" = true
  ∧ (∃ user,
        createUser now newId n e p "123.456.789-09" t sp users
        = (Ok user, users ++ [user])
        ∧ cpf user = "123.456.789-09")
  ∧ isValidCpfFormat "111.444.777-35" = true
  ∧ isValidCpfDigits "111.444.777-35" = true.
Proof.
  intros He Hp Hsp Hne Hnc.
  assert (Hf : isValidCpfFormat "123.456.789-09" = true)
    by (vm_compute; reflexivity).
  assert (Hd : isValidCpfDigits "123.456.789-09" = true)
    by (vm_compute; reflexivity).
  split; [exact Hf |]. split; [exact Hd |]. split.
  - eexists. rewrite createUser_ok by assumption. cbv zeta.
    split; reflexivity.
  - split; vm_compute; reflexivity.
Qed.

Lemma taxId_examples_accepted_witness :
  ∃ user,
    createUser 1700000000000 "1" "Ana" "ana@example.com" "Abcdef1!"
      "123.456.789-09" customer None [] = (Ok user, [user])
    ∧ cpf user = "123.456.789-09".
Proof.
  apply (taxId_examples_accepted [] 1700000000000 "1" "Ana"
           "ana@example.com" "Abcdef1!" customer None).
  - vm_compute. reflexivity.
  - vm_compute. reflexivity.
  - reflexivity.
  - apply not_elem_of_nil.
  - apply not_elem_of_nil.
Defined.

(** ** Updating under an unknown id *)

(** C2, as stated, fails: the gate runs before the lookup, so an update under
    an unknown id with a malformed email reports InvalidEmail. *)
Lemma updateUser_unknown_id_invalid_email :
  (∀ user, user ∈ [] → id user ≠ "nobody")
  ∧ (updateUser "nobody" "Ana" "ana.example.com" "Abcdef1!" "123.456.789-09"
       customer None []).1 = Throw InvalidEmail
  ∧ (updateUser "nobody" "Ana" "ana.example.com" "Abcdef1!" "123.456.789-09"
       customer None []).1 ≠ Throw UserNotFound.
Proof.
  split; [intros user Hin; inversion Hin |].
  split; vm_compute; [reflexivity | discriminate].
Qed.

(** C2, amended: for every registry state and every id not belonging to any
    live record, [updateUser] with that id fails and leaves the array as it
    was; it reports the error of the first failing check of the gate when the
    supplied fields do not pass it, and UserNotFound when they do. *)
Theorem updateUser_unknown_id users i n e p c t sp :
  (∀ user, user ∈ users → id user ≠ i) →
  updateUser i n e p c t sp users
  = (Throw (default UserNotFound (firstFailure (checks users e p sp c))),
     users).
Proof.
  intros Hid. rewrite updateUser_run.
  destruct (firstFailure _); [reflexivity |]. cbn [default].
  destruct (list_find _ users) as [[k user] |] eqn:Hfind; [| reflexivity].
  apply list_find_Some in Hfind as (Hk & Hi & _).
  exfalso. eapply Hid; [| exact Hi].
  apply list_elem_of_lookup. eauto.
Qed.

Lemma updateUser_unknown_id_witness :
  updateUser "nobody" "Ana" "ana@example.com" "Abcdef1!" "123.456.789-09"
    customer None []
  = (Throw UserNotFound, []).
Proof.
  apply (updateUser_unknown_id [] "nobody" "Ana" "ana@example.com"
           "Abcdef1!" "123.456.789-09" customer None).
  intros user Hin. inversion Hin.
Defined.

(** ** Updating with the record's own email or tax-id *)

(** C3: for a live record [u], [updateUser] under [u]'s id with [u]'s own
    email, the other fields valid, fails with EmailInUse; with [u]'s own
    tax-id and an unused valid email it fails with TaxIdInUse.  The array is
    left as it was. *)
Theorem updateUser_own_email_or_taxId users u n e p c t sp :
  u ∈ users →
  isValidPassword p = true → secondaryPasswordOk sp = true →
  (isValidEmail (email u) = true →
   updateUser (id u) n (email u) p c t sp users = (Throw EmailInUse, users))
  ∧ (isValidEmail e = true → ¬ emailTaken users e →
     updateUser (id u) n e p (cpf u) t sp users = (Throw TaxIdInUse, users)).
Proof.
  intros Hu Hp Hsp. split.
  - intros He. rewrite updateUser_run. unfold checks. cbn [firstFailure].
    rewrite He, Hp, Hsp, bool_decide_true; [reflexivity |].
    apply list_elem_of_fmap. eauto.
  - intros He Hne. rewrite updateUser_run. unfold checks. cbn [firstFailure].
    rewrite He, Hp, Hsp, (bool_decide_false _ Hne), bool_decide_true;
      [reflexivity |].
    apply list_elem_of_fmap. eauto.
Qed.

Lemma updateUser_own_email_or_taxId_witness :
  updateUser "1" "Ana Maria" "ana@example.com" "Abcdef1!" "111.444.777-35"
    manager None [ana] = (Throw EmailInUse, [ana])
  ∧ updateUser "1" "Ana Maria" "ana.maria@example.com" "Abcdef1!"
      "123.456.789-09" manager None [ana] = (Throw TaxIdInUse, [ana]).
Proof.
  destruct (updateUser_own_email_or_taxId [ana] ana "Ana Maria"
              "ana.maria@example.com" "Abcdef1!" "111.444.777-35" manager None)
    as [H1 H2].
  - left.
  - vm_compute. reflexivity.
  - reflexivity.
  - split.
    + apply H1. vm_compute. reflexivity.
    + apply H2.
      * vm_compute. reflexivity.
      * intros Hin. apply list_elem_of_singleton in Hin. discriminate.
Defined.

(** ** The order of the checks *)

(** C4: the gate reports the error of the first failing check, in the order
    email shape, password, secondary password (when supplied and not empty),
    email in use, tax-id in use, tax-id validity, and leaves the array as it
    was.  A tax-id in use is never reported as InvalidTaxId; when the four
    checks before it pass, a tax-id that is both in use and malformed is
    reported as TaxIdInUse. *)
Theorem validateUserData_order users e p sp c :
  validateUserData e p sp c users
  = (verdict (firstFailure (checks users e p sp c)), users)
  ∧ (taxIdTaken users c →
     (validateUserData e p sp c users).1 ≠ Throw InvalidTaxId)
  ∧ (isValidEmail e = true → isValidPassword p = true →
     secondaryPasswordOk sp = true → ¬ emailTaken users e →
     taxIdTaken users c →
     isValidCpfFormat c && isValidCpfDigits c = false →
     (validateUserData e p sp c users).1 = Throw TaxIdInUse).
Proof.
  rewrite validateUserData_checks. cbn [fst]. split; [reflexivity |]. split.
  - intros Hc. destruct (firstFailure _) as [error |] eqn:Hf; [| discriminate].
    cbn [verdict]. intros [= ->].
    eapply error_cases; [exact Hf | reflexivity | exact Hc].
  - intros He Hp Hsp Hne Hc _. unfold checks. cbn [firstFailure].
    rewrite He, Hp, Hsp, (bool_decide_false _ Hne), (bool_decide_true _ Hc).
    reflexivity.
Qed.

(** ** Failures leave the array as it was *)

(** C5: when [createUser] or [updateUser] throws, whatever the error, the
    array after the call is the array before the call. *)
Theorem failure_leaves_users_unchanged users now newId i n e p c t sp message :
  ((createUser now newId n e p c t sp users).1 = Throw message →
   (createUser now newId n e p c t sp users).2 = users)
  ∧ ((updateUser i n e p c t sp users).1 = Throw message →
     (updateUser i n e p c t sp users).2 = users).
Proof.
  rewrite createUser_run, updateUser_run.
  destruct (firstFailure _); [split; reflexivity |].
  split; [discriminate |].
  destruct (list_find _ users) as [[k user] |]; [discriminate | reflexivity].
Qed.

(** ** Uniqueness in every reachable state *)

(** C6: in every array reachable from the empty one by calls of [createUser],
    [updateUser] and [deleteUser], two records at different positions have
    different emails and different tax-ids. *)
Theorem reachable_emails_taxIds_unique users :
  reachable users →
  ∀ k l u v,
    users !! k = Some u → users !! l = Some v → k ≠ l →
    email u ≠ email v ∧ cpf u ≠ cpf v.
Proof.
  intros [He Hc]%reachable_unique k l u v Hu Hv Hkl.
  split; intros Heq; apply Hkl.
  - eapply NoDup_lookup; [exact He | |];
      rewrite list_lookup_fmap; [rewrite Hu | rewrite Hv]; simpl;
      [reflexivity | congruence].
  - eapply NoDup_lookup; [exact Hc | |];
      rewrite list_lookup_fmap; [rewrite Hu | rewrite Hv]; simpl;
      [reflexivity | congruence].
Qed.

(** ** Creating a user *)

Lemma to_uint_nonnil n : Nat.to_uint n ≠ Decimal.Nil.
Proof.
  rewrite <- (DecimalNat.Unsigned.of_to n) at 1.
  rewrite DecimalNat.Unsigned.to_of. apply DecimalFacts.unorm_nonnil.
Qed.

Lemma toString_nat_decimal n : decimal_nat n (toString_nat n).
Proof.
  unfold decimal_nat, toString_nat. apply NilZero.usu, to_uint_nonnil.
Qed.

Lemma toString_decimal z : decimal_Z z (toString z).
Proof.
  unfold decimal_Z, toString. apply NilZero.isi; destruct z; cbn;
    try discriminate; intros [= H]; exact (DecimalPos.Unsigned.to_uint_nonnil _ H).
Qed.

(** C7, as stated, fails: the unformatted tax-id [12345678909] passes the
    checksum check and, with the other fields valid and nothing in use, meets
    every condition the claim lists; [createUser] throws InvalidTaxId on it,
    because the gate also asks for the punctuation [DDD.DDD.DDD-DD]. *)
Lemma createUser_unformatted_taxId :
  isValidEmail "ana@example.com" = true
  ∧ isValidPassword "Abcdef1!" = true
  ∧ isValidCpfDigits "12345678909" = true
  ∧ ¬ emailTaken [] "ana@example.com"
  ∧ ¬ taxIdTaken [] "12345678909"
  ∧ createUser 1700000000000 "1" "Ana" "ana@example.com" "Abcdef1!"
      "12345678909" customer None []
    = (Throw InvalidTaxId, []).
Proof.
  repeat split; try (vm_compute; reflexivity); apply not_elem_of_nil.
Qed.

(** C7, amended: on valid input (well-formed email, passwords passing the
    complexity check, tax-id passing both the structural and the checksum
    check, email and tax-id not in use) [createUser] succeeds, appends
    exactly the returned record at the end of the array, and that record
    carries the arguments; its sequence number is the decimal numeral of the
    prior length plus one, its code is the decimal numeral of the timestamp
    followed by the decimal numeral of the prior length, and both are
    non-empty. *)
Theorem createUser_valid users now newId n e p c t sp :
  isValidEmail e = true → isValidPassword p = true →
  secondaryPasswordOk sp = true →
  isValidCpfFormat c = true → isValidCpfDigits c = true →
  ¬ emailTaken users e → ¬ taxIdTaken users c →
  ∃ user,
    createUser now newId n e p c t sp users = (Ok user, users ++ [user])
    ∧ decimal_nat (length users + 1) (userNumber user)
    ∧ (∃ stamp count,
          userCode user = stamp +:+ count
          ∧ decimal_Z now stamp ∧ decimal_nat (length users) count)
    ∧ userNumber user ≠ "" ∧ userCode user ≠ ""
    ∧ (id user, name user, email user, password user, cpf user,
       userType user, superPassword user)
      = (newId, n, e, p, c, t, sp).
Proof.
  intros. eexists. rewrite createUser_ok by assumption. cbv zeta.
  split; [reflexivity |]. cbn.
  split; [apply toString_nat_decimal |]. split.
  - exists (toString now), (toString_nat (length users)).
    split; [reflexivity |].
    split; [apply toString_decimal | apply toString_nat_decimal].
  - split; [apply toString_nat_nonempty |].
    split; [apply append_nonempty, toString_nat_nonempty | reflexivity].
Qed.

(** ** What an update keeps *)

(** C9: a successful [updateUser] replaces one record, the first with the
    given id, by the returned one; code and sequence number are those of the
    record replaced; the secondary password is the argument when one is
    supplied and not empty, and the one of the record replaced otherwise.
    Every other position of the array is as it was. *)
Theorem updateUser_frame users i n e p c t sp user' users' :
  updateUser i n e p c t sp users = (Ok user', users') →
  ∃ k user,
    users !! k = Some user ∧ id user = i
    ∧ (∀ j v, users !! j = Some v → j < k → id v ≠ i)
    ∧ users' = <[k := user']> users ∧ users' !! k = Some user'
    ∧ userCode user' = userCode user
    ∧ userNumber user' = userNumber user
    ∧ (∀ s, sp = Some s → s ≠ "" → superPassword user' = Some s)
    ∧ (sp = None ∨ sp = Some "" → superPassword user' = superPassword user)
    ∧ (∀ j, j ≠ k → users' !! j = users !! j).
Proof.
  rewrite updateUser_run.
  destruct (firstFailure _); [discriminate |].
  destruct (list_find _ users) as [[k user] |] eqn:Hfind; [| discriminate].
  cbv zeta. intros [= <- <-].
  apply list_find_Some in Hfind as (Hk & Hi & Hfirst).
  exists k, user. split; [exact Hk |]. split; [exact Hi |].
  split; [exact Hfirst |]. split; [reflexivity |].
  split; [apply list_lookup_insert_eq; eapply lookup_lt_Some; exact Hk |].
  split; [reflexivity |]. split; [reflexivity |]. split; [| split].
  - intros s -> Hs. cbn. destruct (String.eqb_spec s ""); [done | reflexivity].
  - intros [-> | ->]; reflexivity.
  - intros j Hj. apply list_lookup_insert_ne. done.
Qed.

(** ** Sequence numbers repeat *)

Lemma create_ok now user users :
  validInput user →
  ¬ emailTaken users (email user) → ¬ taxIdTaken users (cpf user) →
  exec users (create now user)
  = users ++ [new_User (id user) (name user) (email user) (password user)
                (cpf user) (userType user)
                (toString now +:+ toString_nat (length users))
                (toString_nat (length users + 1)) (superPassword user)].
Proof.
  intros (He & Hp & Hsp & Hf & Hd) Hne Hnc. unfold create. cbn [exec].
  rewrite createUser_ok by assumption. reflexivity.
Qed.

(** C10: create A, create B, delete A, create C, with valid inputs, distinct
    emails and tax-ids and distinct ids of A and B, leaves two live records,
    B and C, which both carry the sequence number [2]. *)
Theorem sequence_numbers_repeat nowA nowB nowC (a b c : User) :
  validInput a → validInput b → validInput c →
  email a ≠ email b → cpf a ≠ cpf b →
  email b ≠ email c → cpf b ≠ cpf c →
  id a ≠ id b →
  ∃ userB userC,
    run [create nowA a; create nowB b; DeleteUser (id a); create nowC c]
    = [userB; userC]
    ∧ (id userB, email userB, cpf userB) = (id b, email b, cpf b)
    ∧ (id userC, email userC, cpf userC) = (id c, email c, cpf c)
    ∧ userNumber userB = "2" ∧ userNumber userC = "2".
Proof.
  intros Ha Hb Hc Heab Hcab Hebc Hcbc Hid.
  unfold run. cbn [foldl].
  rewrite (create_ok nowA a []); [| exact Ha | apply not_elem_of_nil ..].
  cbn [app length].
  rewrite (create_ok nowB b); [| exact Hb | |];
    [| intros Hin%list_elem_of_singleton; cbn in Hin; congruence ..].
  cbn [app length exec]. rewrite deleteUser_run. cbn [snd].
  rewrite filter_cons_False by (cbn; intros Hne; apply Hne; reflexivity).
  rewrite filter_cons_True by (cbn; congruence).
  rewrite filter_nil.
  rewrite (create_ok nowC c); [| exact Hc | |];
    [| intros Hin%list_elem_of_singleton; cbn in Hin; congruence ..].
  cbn [app length].
  eexists _, _. split; [reflexivity |]. cbn. repeat split; reflexivity.
Qed.

(** ** The theorems at concrete inputs *)

Lemma validateUserData_order_witness :
  (validateUserData "bia@example.com" "Abcdef1!" None "000" [legacy]).1
  = Throw TaxIdInUse.
Proof.
  apply (validateUserData_order [legacy] "bia@example.com" "Abcdef1!" None "000").
  - vm_compute. reflexivity.
  - vm_compute. reflexivity.
  - reflexivity.
  - intros Hin. apply list_elem_of_singleton in Hin. discriminate.
  - left.
  - vm_compute. reflexivity.
Defined.

Lemma failure_leaves_users_unchanged_witness :
  (createUser 1700000000001 "2" "Bia" "bia.example.com" "Abcdef1!"
     "111.444.777-35" manager None [ana]).2 = [ana]
  ∧ (updateUser "1" "Bia" "bia.example.com" "Abcdef1!"
       "111.444.777-35" manager None [ana]).2 = [ana].
Proof.
  destruct (failure_leaves_users_unchanged [ana] 1700000000001 "2" "1" "Bia"
              "bia.example.com" "Abcdef1!" "111.444.777-35" manager None
              InvalidEmail) as [H1 H2].
  split; [apply H1 | apply H2]; vm_compute; reflexivity.
Defined.

Lemma reachable_emails_taxIds_unique_witness :
  reachable [ana; bia] ∧ email ana ≠ email bia ∧ cpf ana ≠ cpf bia.
Proof.
  assert (Hr : reachable [ana; bia]).
  { exists [create 1700000000000 ana; create 1700000000001 bia].
    vm_compute. reflexivity. }
  split; [exact Hr |].
  apply (reachable_emails_taxIds_unique [ana; bia] Hr 0 1 ana bia);
    [reflexivity | reflexivity | lia].
Defined.

Lemma createUser_valid_witness :
  ∃ user,
    createUser 1700000000001 "2" "Bia" "bia@example.com" "Abcdef1!"
      "111.444.777-35" manager (Some "Zyxwvu9?") [ana]
    = (Ok user, [ana; user])
    ∧ userNumber user = "2"
    ∧ userCode user = "17000000000011"
    ∧ (id user, name user, email user, password user, cpf user,
       userType user, superPassword user)
      = ("2", "Bia", "bia@example.com", "Abcdef1!", "111.444.777-35",
         manager, Some "Zyxwvu9?").
Proof.
  destruct (createUser_valid [ana] 1700000000001 "2" "Bia" "bia@example.com"
              "Abcdef1!" "111.444.777-35" manager (Some "Zyxwvu9?"))
    as (user & Hrun & Hnumber & (stamp & count & Hcode & Hstamp & Hcount)
        & _ & _ & Hfields).
  - vm_compute. reflexivity.
  - vm_compute. reflexivity.
  - vm_compute. reflexivity.
  - vm_compute. reflexivity.
  - vm_compute. reflexivity.
  - intros Hin. apply list_elem_of_singleton in Hin. discriminate.
  - intros Hin. apply list_elem_of_singleton in Hin. discriminate.
  - exists user. split; [exact Hrun |].
    apply NilZero.sus in Hnumber. apply NilZero.sis in Hstamp.
    apply NilZero.sus in Hcount.
    split; [rewrite <- Hnumber; reflexivity |].
    split; [rewrite Hcode, <- Hstamp, <- Hcount; reflexivity | exact Hfields].
Defined.

Lemma updateUser_frame_witness :
  ∃ k user,
    [ana; bia] !! k = Some user ∧ id user = "2"
    ∧ userCode user = "17000000000011" ∧ userNumber user = "2"
    ∧ superPassword user = Some "Zyxwvu9?".
Proof.
  destruct (updateUser_frame [ana; bia] "2" "Bia" "bia@example.org"
              "Abcdef1!" "529.982.247-25" admin None
              (mkUser "2" "Bia" "bia@example.org" "Abcdef1!" "529.982.247-25"
                 admin "17000000000011" "2" (Some "Zyxwvu9?"))
              [ana;
               mkUser "2" "Bia" "bia@example.org" "Abcdef1!" "529.982.247-25"
                 admin "17000000000011" "2" (Some "Zyxwvu9?")])
    as (k & user & Hk & Hi & _ & _ & _ & Hcode & Hnumber & _ & Hsp & _).
  - vm_compute. reflexivity.
  - exists k, user. rewrite <- Hcode, <- Hnumber, <- Hsp by (left; reflexivity).
    repeat split; assumption || reflexivity.
Defined.

Lemma sequence_numbers_repeat_witness :
  ∃ userB userC,
    run [create 1700000000000 ana; create 1700000000001 bia;
         DeleteUser (id ana); create 1700000000002 carla]
    = [userB; userC]
    ∧ (id userB, email userB, cpf userB) = (id bia, email bia, cpf bia)
    ∧ (id userC, email userC, cpf userC) = (id carla, email carla, cpf carla)
    ∧ userNumber userB = "2" ∧ userNumber userC = "2".
Proof.
  apply (sequence_numbers_repeat 1700000000000 1700000000001 1700000000002
           ana bia carla);
    try (repeat split; vm_compute; reflexivity); discriminate.
Defined.


(** * Further properties of the service *)

(** ** The email and tax-id patterns *)

Lemma seq_lang r1 r2 w :
  lang (Seq r1 r2) w ↔ ∃ w1 w2, w = w1 ++ w2 ∧ lang r1 w1 ∧ lang r2 w2.
Proof.
  split.
  - inversion 1; subst. eauto.
  - intros (w1 & w2 & -> & H1 & H2). constructor; assumption.
Qed.

Lemma chr_lang c w : lang (Chr c) w ↔ w = [c].
Proof.
  unfold Chr. split.
  - inversion 1 as [| ? a Ha | | | | | |]; subst.
    apply Ascii.eqb_eq in Ha as ->. reflexivity.
  - intros ->. constructor. apply Ascii.eqb_refl.
Qed.

Lemma plus_cls p w :
  lang (Plus (Cls p)) w ↔ w ≠ [] ∧ Forall (λ c, p c = true) w.
Proof.
  unfold Plus. rewrite seq_lang. split.
  - intros (w1 & w2 & -> & H1 & H2). inversion H1; subst.
    apply star_cls in H2. split; [discriminate |]. constructor; assumption.
  - intros [Hne HF]. destruct w as [| a w]; [done |].
    apply Forall_cons in HF as [Ha HF].
    exists [a], w. split; [reflexivity |].
    split; [constructor; exact Ha | apply star_cls; exact HF].
Qed.

Lemma emailRegex_lang w : lang emailRegex w ↔ emailShape w.
Proof.
  unfold emailRegex, emailShape. split.
  - intros (a & w1 & -> & Ha & H1)%seq_lang.
    apply seq_lang in H1 as (x & w2 & -> & ->%chr_lang & H2).
    apply seq_lang in H2 as (b & w3 & -> & Hb & H3).
    apply seq_lang in H3 as (y & c & -> & ->%chr_lang & Hc).
    apply plus_cls in Ha as [Ha Fa], Hb as [Hb Fb], Hc as [Hc Fc].
    exists a, b, c. rewrite !Forall_app. done.
  - intros (a & b & c & -> & Ha & Hb & Hc & HF).
    apply Forall_app in HF as [Fa HF]. apply Forall_app in HF as [Fb Fc].
    apply seq_lang. exists a, ("@"%char :: b ++ "."%char :: c).
    split; [reflexivity |]. split; [apply plus_cls; done |].
    apply seq_lang. exists ["@"%char], (b ++ "."%char :: c).
    split; [reflexivity |]. split; [apply chr_lang; reflexivity |].
    apply seq_lang. exists b, ("."%char :: c).
    split; [reflexivity |]. split; [apply plus_cls; done |].
    apply seq_lang. exists ["."%char], c.
    split; [reflexivity |]. split; [apply chr_lang; reflexivity |].
    apply plus_cls; done.
Qed.

(** X1: the email check accepts exactly the strings of the shape
    [local@domain.tld]: three non-empty runs of characters other than white
    space and [@], with one [@] after the first and one [.] after the
    second. *)
Theorem isValidEmail_shape email :
  isValidEmail email = true ↔ emailShape (list_ascii_of_string email).
Proof.
  unfold isValidEmail, regex_test. rewrite matches_lang.
  apply emailRegex_lang.
Qed.

Lemma isEmailChar_not_at x : isEmailChar x = true → x ≠ "@"%char.
Proof.
  unfold isEmailChar. intros [_ H]%andb_true_iff ->. discriminate.
Qed.

Lemma filter_at_none (w : list ascii) :
  Forall (λ x, isEmailChar x = true) w →
  List.filter (Ascii.eqb "@") w = [].
Proof.
  induction 1 as [| x w Hx _ IH]; [reflexivity |]. cbn [List.filter].
  destruct (Ascii.eqb_spec "@" x) as [<- | _]; [| exact IH].
  apply isEmailChar_not_at in Hx. done.
Qed.

(** X2: an email the check accepts holds exactly one [@], no white space,
    and at least five characters. *)
Theorem isValidEmail_one_at email :
  isValidEmail email = true →
  let w := list_ascii_of_string email in
  length (List.filter (Ascii.eqb "@") w) = 1
  ∧ Forall (λ x, isSpace x = false) w
  ∧ 5 ≤ String.length email.
Proof.
  unfold isValidEmail, regex_test. rewrite matches_lang.
  intros (a & b & c & Hw & Ha & Hb & Hc & HF)%emailRegex_lang.
  cbv zeta. rewrite <- length_list_ascii_of_string, Hw.
  apply Forall_app in HF as [Fa HF]. apply Forall_app in HF as [Fb Fc].
  split; [| split].
  - rewrite List.filter_app. cbn [List.filter]. rewrite Ascii.eqb_refl.
    rewrite List.filter_app. cbn [List.filter].
    change (Ascii.eqb "@" ".") with false. cbv iota.
    rewrite !filter_at_none by assumption. reflexivity.
  - assert (Hs : ∀ l, Forall (λ x, isEmailChar x = true) l →
                      Forall (λ x, isSpace x = false) l).
    { intros l Hl. eapply Forall_impl; [exact Hl |]. cbv beta.
      unfold isEmailChar. intros x [H _]%andb_true_iff.
      apply negb_true_iff in H. exact H. }
    apply Forall_app. split; [auto |]. constructor; [reflexivity |].
    apply Forall_app. split; [auto |]. constructor; [reflexivity | auto].
  - destruct a; [done |]. destruct b; [done |]. destruct c; [done |].
    rewrite length_app. simpl. rewrite length_app. simpl. lia.
Qed.

Lemma isValidEmail_one_at_witness :
  length (List.filter (Ascii.eqb "@") (list_ascii_of_string "ana@example.com")) = 1.
Proof.
  apply (isValidEmail_one_at "ana@example.com"). vm_compute. reflexivity.
Defined.

Lemma cpfRegex_lang w : lang cpfRegex w ↔ cpfShape w.
Proof.
  unfold cpfRegex, cpfShape. split.
  - intros (a & w1 & -> & [La Fa]%times_cls & H)%seq_lang.
    apply seq_lang in H as (x & w2 & -> & ->%chr_lang & H).
    apply seq_lang in H as (b & w3 & -> & [Lb Fb]%times_cls & H).
    apply seq_lang in H as (y & w4 & -> & ->%chr_lang & H).
    apply seq_lang in H as (c & w5 & -> & [Lc Fc]%times_cls & H).
    apply seq_lang in H as (z & d & -> & ->%chr_lang & [Ld Fd]%times_cls).
    exists a, b, c, d. rewrite !Forall_app. done.
  - intros (a & b & c & d & -> & La & Lb & Lc & Ld & HF).
    apply Forall_app in HF as [Fa HF]. apply Forall_app in HF as [Fb HF].
    apply Forall_app in HF as [Fc Fd].
    apply seq_lang. eexists a, _. split; [reflexivity |].
    split; [apply times_cls; done |].
    apply seq_lang. eexists ["."%char], _. split; [reflexivity |].
    split; [apply chr_lang; reflexivity |].
    apply seq_lang. eexists b, _. split; [reflexivity |].
    split; [apply times_cls; done |].
    apply seq_lang. eexists ["."%char], _. split; [reflexivity |].
    split; [apply chr_lang; reflexivity |].
    apply seq_lang. eexists c, _. split; [reflexivity |].
    split; [apply times_cls; done |].
    apply seq_lang. eexists ["-"%char], _. split; [reflexivity |].
    split; [apply chr_lang; reflexivity | apply times_cls; done].
Qed.

(** X3: the structural tax-id check accepts exactly the strings
    [DDD.DDD.DDD-DD]: digits in groups of 3, 3, 3 and 2, with a dot after
    the first and the second group and a hyphen after the third. *)
Theorem isValidCpfFormat_shape cpf :
  isValidCpfFormat cpf = true ↔ cpfShape (list_ascii_of_string cpf).
Proof.
  unfold isValidCpfFormat, regex_test. rewrite matches_lang.
  apply cpfRegex_lang.
Qed.

Lemma filter_digits (w : list ascii) :
  Forall (λ x, isDigit x = true) w → List.filter isDigit w = w.
Proof.
  induction 1 as [| x w Hx _ IH]; [reflexivity |].
  cbn [List.filter]. rewrite Hx, IH. reflexivity.
Qed.

(** X4: a string the structural check accepts has 14 characters, and what
    [isValidCpfDigits] keeps of it, its digits, are 11. *)
Theorem isValidCpfFormat_lengths cpf :
  isValidCpfFormat cpf = true →
  String.length cpf = 14 ∧ length (removeNonDigits cpf) = 11.
Proof.
  unfold isValidCpfFormat, regex_test, removeNonDigits.
  rewrite matches_lang, <- length_list_ascii_of_string.
  intros (a & b & c & d & -> & La & Lb & Lc & Ld & HF)%cpfRegex_lang.
  apply Forall_app in HF as [Fa HF]. apply Forall_app in HF as [Fb HF].
  apply Forall_app in HF as [Fc Fd].
  split.
  - repeat (rewrite length_app || rewrite length_cons). lia.
  - repeat (rewrite List.filter_app; cbn [List.filter]).
    change (isDigit ".") with false. change (isDigit "-") with false.
    cbv iota. rewrite !filter_digits by assumption.
    rewrite !length_app. lia.
Qed.

Lemma isValidCpfFormat_lengths_witness :
  String.length "123.456.789-09" = 14
  ∧ length (removeNonDigits "123.456.789-09") = 11.
Proof.
  apply (isValidCpfFormat_lengths "123.456.789-09"). vm_compute. reflexivity.
Defined.

(** ** The check digits *)

Lemma cpfSum_nonneg n : ∀ rest i len sum,
  Forall (λ c, isDigit c = true) rest →
  (0 ≤ sum)%Z → (i + Z.of_nat n ≤ len + 2)%Z →
  (0 ≤ cpfSum rest i n len sum)%Z.
Proof.
  induction n as [| n IH]; intros rest i len sum HF Hsum Hi;
    [destruct rest; exact Hsum |].
  destruct rest as [| c rest]; [exact Hsum |].
  apply Forall_cons in HF as [Hc HF]. cbn [cpfSum].
  apply parseInt_digit in Hc.
  apply IH; [exact HF | | lia].
  assert (0 ≤ parseInt c * (len + 2 - i))%Z
    by (apply Z.mul_nonneg_nonneg; lia).
  lia.
Qed.

(** X5: on the inputs [isValidCpfDigits] gives it, a string of 11 digits and
    a length within it, the sum [calculateCpfDigit] computes is not negative,
    so the remainder [%] of the source is the mathematical one; the value
    returned is a digit, 0 to 9, and the remainder is never 11. *)
Theorem calculateCpfDigit_range base len :
  Forall (λ c, isDigit c = true) base → length base = 11 → len ≤ 11 →
  let sum := cpfSum base 1 len (Z.of_nat len) 0 in
  (0 ≤ sum)%Z
  ∧ Z.rem (sum * 10) 11 = ((sum * 10) mod 11)%Z
  ∧ (0 ≤ calculateCpfDigit base len ≤ 9)%Z
  ∧ ((sum * 10) mod 11 ≠ 11)%Z.
Proof.
  intros HF _ _. cbv zeta. unfold calculateCpfDigit.
  set (sum := cpfSum base 1 len (Z.of_nat len) 0).
  assert (Hsum : (0 ≤ sum)%Z) by (apply cpfSum_nonneg; [exact HF | lia | lia]).
  assert (H : (0 ≤ (sum * 10) mod 11 < 11)%Z) by (apply Z.mod_pos_bound; lia).
  split; [exact Hsum |].
  split; [apply Z.rem_mod_nonneg; lia |].
  split; [| lia].
  destruct (Z.eqb_spec ((sum * 10) mod 11) 10);
    destruct (Z.eqb_spec ((sum * 10) mod 11) 11); cbn [orb]; lia.
Qed.

Lemma calculateCpfDigit_range_witness :
  (0 ≤ calculateCpfDigit (removeNonDigits "123.456.789-09") 9 ≤ 9)%Z.
Proof.
  apply (calculateCpfDigit_range (removeNonDigits "123.456.789-09") 9).
  - apply removeNonDigits_digits.
  - reflexivity.
  - lia.
Defined.

Lemma isValidCpfDigits_true cpf :
  isValidCpfDigits cpf = true →
  let ds := removeNonDigits cpf in
  length ds = 11
  ∧ calculateCpfDigit ds 9 = parseInt (nth 9 ds "0"%char)
  ∧ calculateCpfDigit ds 10 = parseInt (nth 10 ds "0"%char).
Proof.
  unfold isValidCpfDigits. cbv zeta.
  destruct (Nat.eqb_spec (length (removeNonDigits cpf)) 11) as [Hl | _];
    cbn [negb]; [| discriminate].
  destruct (existsb _ invalidCpfs); [discriminate |].
  intros [H1 H2]%andb_true_iff.
  apply Z.eqb_eq in H1, H2. done.
Qed.

Lemma isDigit_cases x :
  isDigit x = true →
  x ∈ ["0"; "1"; "2"; "3"; "4"; "5"; "6"; "7"; "8"; "9"]%char.
Proof.
  destruct x as [[] [] [] [] [] [] [] []]; vm_compute; try discriminate;
    intros _; repeat (first [left | right]).
Qed.

(** X6: a string whose digits are eleven times the same digit is rejected,
    whatever else it holds. *)
Theorem isValidCpfDigits_repeated cpf x :
  removeNonDigits cpf = replicate 11 x → isValidCpfDigits cpf = false.
Proof.
  intros Hr.
  assert (Hx : isDigit x = true).
  { pose proof (removeNonDigits_digits cpf) as HF. rewrite Hr in HF.
    apply Forall_cons in HF as [Hx _]. exact Hx. }
  unfold isValidCpfDigits. cbv zeta. rewrite Hr.
  apply isDigit_cases in Hx.
  repeat (apply elem_of_cons in Hx as [-> | Hx]; [vm_compute; reflexivity |]).
  inversion Hx.
Qed.

Lemma isValidCpfDigits_repeated_witness :
  isValidCpfDigits "777.777.777-77" = false.
Proof.
  apply (isValidCpfDigits_repeated "777.777.777-77" "7"%char).
  vm_compute. reflexivity.
Defined.

Lemma cpfSum_take n : ∀ rest i len sum,
  cpfSum (take n rest) i n len sum = cpfSum rest i n len sum.
Proof.
  induction n as [| n IH]; intros rest i len sum; [by destruct rest |].
  destruct rest as [| c rest]; [reflexivity |]. cbn [take cpfSum]. apply IH.
Qed.

Lemma calculateCpfDigit_take base len :
  calculateCpfDigit (take len base) len = calculateCpfDigit base len.
Proof. unfold calculateCpfDigit. rewrite cpfSum_take. reflexivity. Qed.

Lemma parseInt_inj x y : parseInt x = parseInt y → x = y.
Proof.
  unfold parseInt, code. intros H.
  assert (HN : N_of_ascii x = N_of_ascii y) by lia.
  rewrite <- (ascii_N_embedding x), <- (ascii_N_embedding y), HN. reflexivity.
Qed.

Lemma take_S_nth (l1 l2 : list ascii) n :
  n < length l1 → n < length l2 →
  take n l1 = take n l2 → nth n l1 "0"%char = nth n l2 "0"%char →
  take (S n) l1 = take (S n) l2.
Proof.
  intros [x1 H1]%lookup_lt_is_Some_2 [x2 H2]%lookup_lt_is_Some_2 Ht Hn.
  rewrite !nth_lookup, H1, H2 in Hn. simpl in Hn. subst x2.
  rewrite (take_S_r _ _ _ H1), (take_S_r _ _ _ H2), Ht. reflexivity.
Qed.

(** X7: the first nine digits determine the two check digits: two strings
    the checksum check accepts whose first nine digits agree have the same
    eleven digits. *)
Theorem isValidCpfDigits_check_digits cpf1 cpf2 :
  isValidCpfDigits cpf1 = true → isValidCpfDigits cpf2 = true →
  take 9 (removeNonDigits cpf1) = take 9 (removeNonDigits cpf2) →
  removeNonDigits cpf1 = removeNonDigits cpf2.
Proof.
  intros (L1 & F1 & S1)%isValidCpfDigits_true (L2 & F2 & S2)%isValidCpfDigits_true.
  set (d1 := removeNonDigits cpf1) in *. set (d2 := removeNonDigits cpf2) in *.
  intros H9.
  assert (H10 : take 10 d1 = take 10 d2).
  { apply take_S_nth; [lia | lia | exact H9 |]. apply parseInt_inj.
    rewrite <- F1, <- F2, <- (calculateCpfDigit_take d1),
      <- (calculateCpfDigit_take d2), H9. reflexivity. }
  assert (H11 : take 11 d1 = take 11 d2).
  { apply take_S_nth; [lia | lia | exact H10 |]. apply parseInt_inj.
    rewrite <- S1, <- S2, <- (calculateCpfDigit_take d1),
      <- (calculateCpfDigit_take d2), H10. reflexivity. }
  rewrite !take_ge in H11 by lia. exact H11.
Qed.

Lemma isValidCpfDigits_check_digits_witness :
  removeNonDigits "123.456.789-09" = removeNonDigits "12345678909".
Proof.
  apply (isValidCpfDigits_check_digits "123.456.789-09" "12345678909");
    vm_compute; reflexivity.
Defined.

(** X8: the checksum check looks at the digits only: a string and the string
    of its digits get the same answer. *)
Theorem isValidCpfDigits_digits_only cpf :
  isValidCpfDigits (string_of_list_ascii (removeNonDigits cpf))
  = isValidCpfDigits cpf.
Proof.
  assert (H : removeNonDigits (string_of_list_ascii (removeNonDigits cpf))
              = removeNonDigits cpf).
  { unfold removeNonDigits at 1. rewrite list_ascii_of_string_of_list_ascii.
    apply filter_digits, removeNonDigits_digits. }
  unfold isValidCpfDigits. rewrite H. reflexivity.
Qed.

(** ** Looking a record up *)

Lemma getUserById_run i users :
  getUserById i users
  = match list_find (λ user, id user = i) users with
    | None => (Throw UserNotFound, users)
    | Some (_, user) => (Ok user, users)
    end.
Proof.
  unfold getUserById. rewrite run_get.
  destruct (list_find _ users) as [[k user] |]; reflexivity.
Qed.

(** X9: [getUserById] never changes the array; it throws UserNotFound
    exactly when no record has the id, and otherwise returns the first record
    of the array with that id. *)
Theorem getUserById_first i users :
  (getUserById i users).2 = users
  ∧ ((getUserById i users).1 = Throw UserNotFound
     ↔ ∀ user, user ∈ users → id user ≠ i)
  ∧ (∀ user, (getUserById i users).1 = Ok user
     ↔ ∃ k, users !! k = Some user ∧ id user = i
          ∧ ∀ j v, users !! j = Some v → j < k → id v ≠ i).
Proof.
  rewrite getUserById_run.
  destruct (list_find _ users) as [[k u] |] eqn:Hfind; cbn [fst snd].
  - apply list_find_Some in Hfind as (Hk & Hi & Hfirst).
    split; [reflexivity |]. split.
    + split; [discriminate |]. intros Hno. exfalso.
      eapply Hno; [| exact Hi]. apply list_elem_of_lookup. eauto.
    + intros user. split.
      * intros [= <-]. eauto.
      * intros (k' & Hk' & Hi' & Hfirst'). f_equal.
        destruct (Nat.lt_trichotomy k k') as [Hlt | [-> | Hlt]].
        -- exfalso. exact (Hfirst' k u Hk Hlt Hi).
        -- congruence.
        -- exfalso. exact (Hfirst k' user Hk' Hlt Hi').
  - apply list_find_None in Hfind.
    split; [reflexivity |]. split.
    + split; [| reflexivity]. intros _ user Hin.
      eapply Forall_forall in Hfind; eauto.
    + intros user. split; [discriminate |].
      intros (k & Hk & Hi & _). exfalso.
      eapply Forall_forall in Hfind; [exact (Hfind Hi) |].
      apply list_elem_of_lookup. eauto.
Qed.

(** X10: a record created under an id that no live record has is the one
    [getUserById] returns for that id afterwards. *)
Theorem getUserById_createUser now newId n e p c t sp users user users' :
  (∀ v, v ∈ users → id v ≠ newId) →
  createUser now newId n e p c t sp users = (Ok user, users') →
  getUserById newId users' = (Ok user, users').
Proof.
  intros Hfresh. rewrite createUser_run.
  destruct (firstFailure _); [discriminate |]. cbv zeta. intros [= <- <-].
  rewrite getUserById_run.
  assert (Hnone : list_find (λ v, id v = newId) users = None).
  { apply list_find_None, Forall_forall. exact Hfresh. }
  rewrite (list_find_app_r _ _ _ Hnone). cbn.
  rewrite decide_True by reflexivity. reflexivity.
Qed.

(** X11: after a successful [updateUser] under an id, [getUserById] with
    that id returns the updated record. *)
Theorem getUserById_updateUser i n e p c t sp users user' users' :
  updateUser i n e p c t sp users = (Ok user', users') →
  getUserById i users' = (Ok user', users').
Proof.
  rewrite updateUser_run.
  destruct (firstFailure _); [discriminate |].
  destruct (list_find _ users) as [[k user] |] eqn:Hfind; [| discriminate].
  cbv zeta. intros [= <- <-].
  apply list_find_Some in Hfind as (Hk & Hi & Hfirst).
  rewrite getUserById_run.
  replace (list_find (λ v, id v = i) (<[k := assign user n e p c t sp]> users))
    with (Some (k, assign user n e p c t sp)); [reflexivity |].
  symmetry. apply list_find_Some. split; [| split].
  - apply list_lookup_insert_eq. eapply lookup_lt_Some. exact Hk.
  - exact Hi.
  - intros j v Hj Hlt. rewrite list_lookup_insert_ne in Hj by lia. eauto.
Qed.

(** ** Deleting *)

Lemma find_filter_ne i j users :
  j ≠ i →
  snd <$> list_find (λ v, id v = j) (filter (λ v, id v ≠ i) users)
  = snd <$> list_find (λ v, id v = j) users.
Proof.
  intros Hne. induction users as [| u users IH]; [reflexivity |].
  rewrite filter_cons. destruct (decide (id u ≠ i)) as [Hu | Hu].
  - cbn [list_find]. destruct (decide (id u = j)); [reflexivity |].
    destruct (list_find _ (filter _ users)) as [[k1 u1] |];
      destruct (list_find _ users) as [[k2 u2] |]; cbn in *; congruence.
  - cbn [list_find]. destruct (decide (id u = j)) as [Hj | Hj].
    + exfalso. apply Hu. congruence.
    + rewrite IH. destruct (list_find _ users) as [[k2 u2] |]; reflexivity.
Qed.

(** X12: [deleteUser] never throws; after it no record has the id, so
    [getUserById] with it throws UserNotFound; lookups under every other id
    answer as before. *)
Theorem deleteUser_getUserById i users :
  (deleteUser i users).1 = Ok tt
  ∧ getUserById i (deleteUser i users).2
    = (Throw UserNotFound, (deleteUser i users).2)
  ∧ ∀ j, j ≠ i →
      (getUserById j (deleteUser i users).2).1 = (getUserById j users).1.
Proof.
  rewrite deleteUser_run. cbn [fst snd]. split; [reflexivity |]. split.
  - rewrite getUserById_run.
    replace (list_find (λ v, id v = i) (filter (λ v, id v ≠ i) users))
      with (@None (nat * User)); [reflexivity |].
    symmetry. apply list_find_None, Forall_forall.
    intros v [Hv _]%list_elem_of_filter. exact Hv.
  - intros j Hne. rewrite !getUserById_run.
    pose proof (find_filter_ne i j users Hne) as H.
    destruct (list_find _ (filter _ users)) as [[k1 u1] |];
      destruct (list_find _ users) as [[k2 u2] |]; cbn in H; cbn [fst];
      congruence.
Qed.

(** X13: deleting under an id that no record has leaves the array as it is,
    so deleting twice is the same as deleting once; and a deletion keeps,
    in their order, exactly the records with another id. *)
Theorem deleteUser_absent i users :
  ((∀ user, user ∈ users → id user ≠ i) → (deleteUser i users).2 = users)
  ∧ (deleteUser i (deleteUser i users).2).2 = (deleteUser i users).2
  ∧ (deleteUser i users).2 `sublist_of` users
  ∧ ∀ user, user ∈ (deleteUser i users).2 ↔ user ∈ users ∧ id user ≠ i.
Proof.
  rewrite !deleteUser_run. cbn [snd].
  assert (Hid : ∀ l : list User,
            (∀ user, user ∈ l → id user ≠ i) → filter (λ v, id v ≠ i) l = l).
  { induction l as [| u l IH]; intros Hl; [reflexivity |].
    rewrite filter_cons_True by (apply Hl; left).
    f_equal. apply IH. intros v Hv. apply Hl. right. exact Hv. }
  split; [exact (Hid users) |]. split; [| split].
  - apply Hid. intros v [Hv _]%list_elem_of_filter. exact Hv.
  - apply sublist_filter.
  - intros user. rewrite list_elem_of_filter. tauto.
Qed.

(** ** What the operations keep *)

(** X14: [updateUser], whether it succeeds or throws, leaves the ids of the
    records, position by position, and so the length of the array, as they
    were. *)
Theorem updateUser_ids i n e p c t sp users :
  id <$> (updateUser i n e p c t sp users).2 = id <$> users
  ∧ length (updateUser i n e p c t sp users).2 = length users.
Proof.
  rewrite updateUser_run.
  destruct (firstFailure _); [done |].
  destruct (list_find _ users) as [[k user] |] eqn:Hfind; [| done].
  apply list_find_Some in Hfind as (Hk & _ & _). cbn [snd].
  split; [| apply length_insert].
  rewrite list_fmap_insert. apply list_insert_id.
  rewrite list_lookup_fmap, Hk. reflexivity.
Qed.

(** X15: once [createUser] has stored a record, a further [createUser] with
    that record's email, the passwords passing their checks, throws
    EmailInUse; with another, unused, valid email and that record's tax-id it
    throws TaxIdInUse.  The array stays as the first call left it. *)
Theorem createUser_again now newId n e p c t sp users user users'
    now2 id2 n2 e2 p2 c2 t2 sp2 :
  createUser now newId n e p c t sp users = (Ok user, users') →
  isValidPassword p2 = true → secondaryPasswordOk sp2 = true →
  createUser now2 id2 n2 e p2 c2 t2 sp2 users' = (Throw EmailInUse, users')
  ∧ (isValidEmail e2 = true → ¬ emailTaken users' e2 →
     createUser now2 id2 n2 e2 p2 c t2 sp2 users' = (Throw TaxIdInUse, users')).
Proof.
  rewrite createUser_run.
  destruct (firstFailure _) eqn:Hf; [discriminate |].
  apply checks_pass in Hf as (He & _). cbv zeta. intros [= <- <-] Hp2 Hsp2.
  assert (Hin : ∀ f : User → string,
            f (new_User newId n e p c t
                 (toString now +:+ toString_nat (length users))
                 (toString_nat (length users + 1)) sp)
            ∈ f <$> users ++ [new_User newId n e p c t
                 (toString now +:+ toString_nat (length users))
                 (toString_nat (length users + 1)) sp]).
  { intros f. apply list_elem_of_fmap_2, elem_of_app. right. left. }
  split.
  - rewrite createUser_run. unfold checks. cbn [firstFailure].
    rewrite He, Hp2, Hsp2, bool_decide_true; [reflexivity |].
    exact (Hin email).
  - intros He2 Hne. rewrite createUser_run. unfold checks. cbn [firstFailure].
    rewrite He2, Hp2, Hsp2, (bool_decide_false _ Hne), bool_decide_true;
      [reflexivity |].
    exact (Hin cpf).
Qed.

(** X16: [createUser] succeeds exactly on input that passes the six checks of
    the gate. *)
Theorem createUser_succeeds_iff now newId n e p c t sp users :
  (∃ user users', createUser now newId n e p c t sp users = (Ok user, users'))
  ↔ isValidEmail e = true ∧ isValidPassword p = true
    ∧ secondaryPasswordOk sp = true
    ∧ ¬ emailTaken users e ∧ ¬ taxIdTaken users c
    ∧ isValidCpfFormat c = true ∧ isValidCpfDigits c = true.
Proof.
  rewrite <- checks_pass, createUser_run.
  destruct (firstFailure _); split.
  - intros (? & ? & [=]).
  - discriminate.
  - reflexivity.
  - intros _. eauto.
Qed.

(** X17: [updateUser] succeeds exactly when the input passes the six checks
    of the gate and some record has the id. *)
Theorem updateUser_succeeds_iff i n e p c t sp users :
  (∃ user' users', updateUser i n e p c t sp users = (Ok user', users'))
  ↔ (isValidEmail e = true ∧ isValidPassword p = true
     ∧ secondaryPasswordOk sp = true
     ∧ ¬ emailTaken users e ∧ ¬ taxIdTaken users c
     ∧ isValidCpfFormat c = true ∧ isValidCpfDigits c = true)
    ∧ ∃ user, user ∈ users ∧ id user = i.
Proof.
  rewrite <- checks_pass, updateUser_run.
  destruct (firstFailure _).
  { split; [intros (? & ? & [=]) | intros [[=] _]]. }
  destruct (list_find _ users) as [[k user] |] eqn:Hfind.
  - apply list_find_Some in Hfind as (Hk & Hi & _).
    split; [intros _ | intros _; eauto].
    split; [reflexivity |]. exists user.
    split; [apply list_elem_of_lookup; eauto | exact Hi].
  - apply list_find_None in Hfind.
    split; [intros (? & ? & [=]) |]. intros [_ (user & Hin & Hi)].
    exfalso. eapply Forall_forall in Hfind; [exact (Hfind Hi) | exact Hin].
Qed.

Lemma firstFailure_error users e p sp c error :
  firstFailure (checks users e p sp c) = Some error →
  error ∈ [InvalidEmail; InvalidPassword; InvalidSecondaryPassword;
           EmailInUse; TaxIdInUse; InvalidTaxId].
Proof.
  unfold checks. cbn [firstFailure].
  repeat match goal with
         | |- context [if ?b then _ else _] => destruct b
         end; intros [= <-]; repeat (first [left | right]).
Qed.

(** X18: the errors of [createUser] are the six of the gate, never
    UserNotFound; those of [updateUser] are these six and UserNotFound. *)
Theorem thrown_errors now newId i n e p c t sp users message :
  ((createUser now newId n e p c t sp users).1 = Throw message →
   message ∈ [InvalidEmail; InvalidPassword; InvalidSecondaryPassword;
              EmailInUse; TaxIdInUse; InvalidTaxId]
   ∧ message ≠ UserNotFound)
  ∧ ((updateUser i n e p c t sp users).1 = Throw message →
     message ∈ [InvalidEmail; InvalidPassword; InvalidSecondaryPassword;
                EmailInUse; TaxIdInUse; InvalidTaxId; UserNotFound]).
Proof.
  rewrite createUser_run, updateUser_run.
  destruct (firstFailure _) eqn:Hf; cbn [fst].
  - apply firstFailure_error in Hf. split; intros [= <-].
    + split; [exact Hf |].
      intros ->. repeat (apply elem_of_cons in Hf as [[=] | Hf]).
      inversion Hf.
    + apply elem_of_app with (l1 := [_; _; _; _; _; _]) (l2 := [_]).
      left. exact Hf.
  - split; [discriminate |].
    destruct (list_find _ users) as [[k user] |]; [discriminate |].
    intros [= <-]. repeat (first [left | right]).
Qed.

(** ** Every stored record is valid *)

Lemma secondaryPasswordOk_assign sp previous :
  secondaryPasswordOk sp = true → secondaryPasswordOk previous = true →
  secondaryPasswordOk (if truthy sp then sp else previous) = true.
Proof. intros Hsp Hprev. destruct (truthy sp); assumption. Qed.

Lemma valid_exec users c :
  Forall validInput users → Forall validInput (exec users c).
Proof.
  intros HF.
  destruct c as [now newId n e p c t sp | i n e p c t sp | i]; cbn [exec].
  - rewrite createUser_run. destruct (firstFailure _) eqn:Hf; [exact HF |].
    apply checks_pass in Hf as (He & Hp & Hsp & _ & _ & Hcf & Hcd).
    cbn [snd]. apply Forall_app. split; [exact HF |].
    constructor; [| constructor]. repeat split; assumption.
  - rewrite updateUser_run. destruct (firstFailure _) eqn:Hf; [exact HF |].
    apply checks_pass in Hf as (He & Hp & Hsp & _ & _ & Hcf & Hcd).
    destruct (list_find _ users) as [[k user] |] eqn:Hfind; [| exact HF].
    apply list_find_Some in Hfind as (Hk & _ & _).
    cbn [snd]. apply Forall_insert; [exact HF |].
    pose proof (Forall_lookup_1 _ _ _ _ HF Hk) as (_ & _ & Hprev & _).
    repeat split; try assumption. cbn.
    apply secondaryPasswordOk_assign; assumption.
  - rewrite deleteUser_run. cbn [snd].
    apply Forall_forall. intros u [_ Hu]%list_elem_of_filter.
    eapply Forall_forall in HF; eauto.
Qed.

(** X19: in every array reachable from the empty one, each record's email
    and password pass their checks, its tax-id passes the structural and the
    checksum check, and its secondary password, when there is one and it is
    not empty, passes the password check. *)
Theorem reachable_records_valid users :
  reachable users →
  ∀ user, user ∈ users →
    isValidEmail (email user) = true
    ∧ isValidPassword (password user) = true
    ∧ isValidCpfFormat (cpf user) = true
    ∧ isValidCpfDigits (cpf user) = true
    ∧ ∀ s, superPassword user = Some s → s ≠ "" → isValidPassword s = true.
Proof.
  intros [calls <-]. unfold run.
  assert (HF : Forall validInput (foldl exec [] calls)).
  { assert (H0 : Forall validInput []) by constructor.
    revert H0. generalize (@nil User).
    induction calls as [| c calls IH]; intros users HF; [exact HF |].
    cbn [foldl]. apply IH, valid_exec, HF. }
  intros user Hin. eapply Forall_forall in HF; [| exact Hin].
  destruct HF as (He & Hp & Hsp & Hcf & Hcd).
  repeat split; try assumption.
  intros s Hs Hne. rewrite Hs in Hsp. cbn in Hsp.
  rewrite bool_decide_false in Hsp by exact Hne. exact Hsp.
Qed.

Lemma reachable_records_valid_witness :
  isValidEmail (email bia) = true
  ∧ isValidPassword (password bia) = true
  ∧ isValidCpfFormat (cpf bia) = true
  ∧ isValidCpfDigits (cpf bia) = true
  ∧ ∀ s, superPassword bia = Some s → s ≠ "" → isValidPassword s = true.
Proof.
  apply (reachable_records_valid [ana; bia]).
  - exists [create 1700000000000 ana; create 1700000000001 bia].
    vm_compute. reflexivity.
  - right. left.
Defined.

(** ** Sequence numbers and positions *)

Lemma toString_nat_inj m n : toString_nat m = toString_nat n → m = n.
Proof.
  unfold toString_nat. intros H.
  assert (Hnn : ∀ k, Nat.to_uint k ≠ Decimal.Nil).
  { intros k. rewrite <- (DecimalNat.Unsigned.of_to k) at 1.
    rewrite DecimalNat.Unsigned.to_of. apply DecimalFacts.unorm_nonnil. }
  apply (f_equal NilZero.uint_of_string) in H.
  rewrite !NilZero.usu in H by apply Hnn.
  injection H as H. apply DecimalNat.Unsigned.to_uint_inj, H.
Qed.

Lemma filter_lookup_ge {A} (P : A → Prop) `{!∀ x, Decision (P x)}
    (l : list A) : ∀ k x,
  filter P l !! k = Some x → ∃ k', k ≤ k' ∧ l !! k' = Some x.
Proof.
  induction l as [| a l IH]; intros k x Hk; [done |].
  rewrite filter_cons in Hk. destruct (decide (P a)).
  - destruct k as [| k]; [exists 0; split; [lia | exact Hk] |].
    apply IH in Hk as (k' & Hle & Hk'). exists (S k'). split; [lia | exact Hk'].
  - apply IH in Hk as (k' & Hle & Hk'). exists (S k'). split; [lia | exact Hk'].
Qed.

Lemma number_exec users c :
  (∀ k u, users !! k = Some u → ∃ m, userNumber u = toString_nat m ∧ k < m) →
  ∀ k u, exec users c !! k = Some u →
    ∃ m, userNumber u = toString_nat m ∧ k < m.
Proof.
  intros Hinv.
  destruct c as [now newId n e p c t sp | i n e p c t sp | i]; cbn [exec].
  - rewrite createUser_run. destruct (firstFailure _); [exact Hinv |].
    cbn [snd]. intros k u [Hk | [Hk Hu]]%lookup_app_Some; [eauto |].
    apply list_lookup_singleton_Some in Hu as [Hk0 <-].
    exists (length users + 1). split; [reflexivity | lia].
  - rewrite updateUser_run. destruct (firstFailure _); [exact Hinv |].
    destruct (list_find _ users) as [[j user] |] eqn:Hfind; [| exact Hinv].
    apply list_find_Some in Hfind as (Hj & _ & _). cbn [snd].
    intros k u [(-> & <- & _) | [_ Hk]]%list_lookup_insert_Some; [| eauto].
    exact (Hinv _ _ Hj).
  - rewrite deleteUser_run. cbn [snd]. intros k u Hk.
    apply filter_lookup_ge in Hk as (k' & Hle & Hk').
    destruct (Hinv _ _ Hk') as (m & Hm & Hlt). exists m. split; [exact Hm | lia].
Qed.

(** X20: in every array reachable from the empty one, the sequence number
    of the record at position [k] (from 0) is the decimal of a number greater
    than [k]. *)
Theorem reachable_number_bound users :
  reachable users →
  ∀ k user, users !! k = Some user →
    ∃ m, userNumber user = toString_nat m ∧ k < m.
Proof.
  intros [calls <-]. unfold run.
  assert (H0 : ∀ k u, @nil User !! k = Some u →
                 ∃ m, userNumber u = toString_nat m ∧ k < m) by done.
  revert H0. generalize (@nil User).
  induction calls as [| c calls IH]; intros users Hinv; [exact Hinv |].
  cbn [foldl]. apply IH, number_exec, Hinv.
Qed.

Lemma reachable_number_bound_witness :
  ∃ m, userNumber bia = toString_nat m ∧ 1 < m.
Proof.
  apply (reachable_number_bound [ana; bia]).
  - exists [create 1700000000000 ana; create 1700000000001 bia].
    vm_compute. reflexivity.
  - reflexivity.
Defined.

Lemma position_exec users c :
  isDelete c = false →
  (∀ k u, users !! k = Some u → userNumber u = toString_nat (k + 1)) →
  ∀ k u, exec users c !! k = Some u → userNumber u = toString_nat (k + 1).
Proof.
  intros Hc Hinv.
  destruct c as [now newId n e p c t sp | i n e p c t sp | i]; cbn [exec];
    [| | discriminate].
  - rewrite createUser_run. destruct (firstFailure _); [exact Hinv |].
    cbn [snd]. intros k u [Hk | [Hk Hu]]%lookup_app_Some; [eauto |].
    apply list_lookup_singleton_Some in Hu as [Hk0 <-].
    cbn. f_equal. lia.
  - rewrite updateUser_run. destruct (firstFailure _); [exact Hinv |].
    destruct (list_find _ users) as [[j user] |] eqn:Hfind; [| exact Hinv].
    apply list_find_Some in Hfind as (Hj & _ & _). cbn [snd].
    intros k u [(-> & <- & _) | [_ Hk]]%list_lookup_insert_Some; [| eauto].
    exact (Hinv _ _ Hj).
Qed.

(** X21: in a run from the empty array without [deleteUser], the record at
    position [k] (from 0) carries the sequence number [k + 1], so no two
    records share a sequence number. *)
Theorem run_without_delete_numbers calls :
  Forall (λ c, isDelete c = false) calls →
  ∀ k l u v,
    run calls !! k = Some u → run calls !! l = Some v →
    userNumber u = toString_nat (k + 1)
    ∧ (k ≠ l → userNumber u ≠ userNumber v).
Proof.
  intros Hcalls. unfold run.
  assert (Hpos : ∀ k u, foldl exec [] calls !! k = Some u →
                   userNumber u = toString_nat (k + 1)).
  { assert (H0 : ∀ k u, @nil User !! k = Some u →
                   userNumber u = toString_nat (k + 1)) by done.
    revert H0. generalize (@nil User).
    induction Hcalls as [| c calls Hc _ IH]; intros users Hinv; [exact Hinv |].
    cbn [foldl]. apply IH, position_exec; assumption. }
  intros k l u v Hu Hv. split; [exact (Hpos _ _ Hu) |].
  intros Hkl Heq. rewrite (Hpos _ _ Hu), (Hpos _ _ Hv) in Heq.
  apply toString_nat_inj in Heq. lia.
Qed.

Lemma run_without_delete_numbers_witness :
  userNumber bia = toString_nat (1 + 1)
  ∧ (1 ≠ 0 → userNumber bia ≠ userNumber ana).
Proof.
  apply (run_without_delete_numbers
           [create 1700000000000 ana; create 1700000000001 bia]).
  - repeat constructor.
  - reflexivity.
  - reflexivity.
Defined.

(** ** The further properties at concrete inputs *)

Lemma getUserById_createUser_witness :
  getUserById "2" [ana; bia] = (Ok bia, [ana; bia]).
Proof.
  apply (getUserById_createUser 1700000000001 "2" "Bia" "bia@example.com"
           "Abcdef1!" "111.444.777-35" manager (Some "Zyxwvu9?") [ana]).
  - intros v ->%list_elem_of_singleton. discriminate.
  - vm_compute. reflexivity.
Defined.

Lemma getUserById_updateUser_witness :
  getUserById "1"
    [mkUser "1" "Ana Maria" "ana.maria@example.com" "Abcdef1!"
       "529.982.247-25" manager "17000000000000" "1" (Some "Zyxwvu9?");
     bia]
  = (Ok (mkUser "1" "Ana Maria" "ana.maria@example.com" "Abcdef1!"
           "529.982.247-25" manager "17000000000000" "1" (Some "Zyxwvu9?")),
     [mkUser "1" "Ana Maria" "ana.maria@example.com" "Abcdef1!"
        "529.982.247-25" manager "17000000000000" "1" (Some "Zyxwvu9?");
      bia]).
Proof.
  apply (getUserById_updateUser "1" "Ana Maria" "ana.maria@example.com"
           "Abcdef1!" "529.982.247-25" manager (Some "Zyxwvu9?") [ana; bia]).
  vm_compute. reflexivity.
Defined.

Lemma deleteUser_getUserById_witness :
  (getUserById "2" (deleteUser "1" [ana; bia]).2).1
  = (getUserById "2" [ana; bia]).1.
Proof.
  apply (deleteUser_getUserById "1" [ana; bia]). discriminate.
Defined.

Lemma deleteUser_absent_witness : (deleteUser "3" [ana; bia]).2 = [ana; bia].
Proof.
  destruct (deleteUser_absent "3" [ana; bia]) as [Habsent _].
  apply Habsent. intros user Hin.
  repeat (apply elem_of_cons in Hin as [-> | Hin]; [discriminate |]).
  inversion Hin.
Defined.

Lemma createUser_again_witness :
  createUser 1700000000001 "2" "Bia" "ana@example.com" "Abcdef1!"
    "111.444.777-35" manager None [ana] = (Throw EmailInUse, [ana])
  ∧ (isValidEmail "bia@example.com" = true →
     ¬ emailTaken [ana] "bia@example.com" →
     createUser 1700000000001 "2" "Bia" "bia@example.com" "Abcdef1!"
       "123.456.789-09" manager None [ana] = (Throw TaxIdInUse, [ana])).
Proof.
  apply (createUser_again 1700000000000 "1" "Ana" "ana@example.com"
           "Abcdef1!" "123.456.789-09" customer None [] ana [ana]
           1700000000001 "2" "Bia" "bia@example.com" "Abcdef1!"
           "111.444.777-35" manager None).
  - vm_compute. reflexivity.
  - vm_compute. reflexivity.
  - reflexivity.
Defined.

Lemma thrown_errors_witness :
  "Invalid email"
  ∈ [InvalidEmail; InvalidPassword; InvalidSecondaryPassword;
     EmailInUse; TaxIdInUse; InvalidTaxId]
  ∧ "Invalid email" ≠ UserNotFound.
Proof.
  apply (thrown_errors 1700000000001 "2" "1" "Bia" "bia.example.com"
           "Abcdef1!" "111.444.777-35" manager None [ana] "Invalid email").
  vm_compute. reflexivity.
Defined.
